(** * fortrunner/follow.py: statement reconstruction, classification,
      routine catalogue and flow tracing

    A shallow embedding of [src/fortrunner/follow.py].  Python [str] values
    are lists of Unicode code points, generators are the list of values they
    yield together with the way they finish, exceptions are values of an
    error monad, and instances of the event classes are a class tag with an
    attribute dictionary.

    The embedding describes the bodies of the functions as Python runs them
    once the [def] statements have been executed.  (The return annotation of
    [collect_routines] names [Optional], which the module does not import;
    an interpreter that evaluates annotations when it executes the [def]
    stops there.  The bodies are embedded as they run where it does not.) *)

From Stdlib Require Import List NArith ZArith Ascii String Bool Lia.
From stdpp Require Import base option list strings gmap.
Import ListNotations.

Local Open Scope N_scope.
Local Open Scope list_scope.

(** ** Python strings *)

Module Str.

(** One Unicode code point. *)
Definition char := N.

(** A Python [str]. *)
Definition str := list char.

(** The code points of an ASCII literal of the source. *)
Definition of_string (s : string) : str :=
  map N_of_ascii (list_ascii_of_string s).

Definition bang : char := 33.       (* "!" *)
Definition ampersand : char := 38.  (* "&" *)

(** [str.isspace] on one code point, which is also what [\s] matches in a
    [str] pattern: the code points CPython's [_PyUnicode_IsWhitespace]
    accepts. *)
Definition isspace (c : char) : bool :=
  ((9 <=? c) && (c <=? 13))
  || ((28 <=? c) && (c <=? 32))
  || (c =? 133) || (c =? 160) || (c =? 5760)
  || ((8192 <=? c) && (c <=? 8202))
  || (c =? 8232) || (c =? 8233) || (c =? 8239) || (c =? 8287)
  || (c =? 12288).

(** [s.lstrip()] *)
Fixpoint lstrip (s : str) : str :=
  match s with
  | [] => []
  | c :: s' => if isspace c then lstrip s' else s
  end.

(** [s.rstrip()] *)
Fixpoint rstrip (s : str) : str :=
  match s with
  | [] => []
  | c :: s' =>
      match rstrip s' with
      | [] => if isspace c then [] else [c]
      | t => c :: t
      end
  end.

(** [s.strip()] *)
Definition strip (s : str) : str := rstrip (lstrip s).

(** [s.split(sep)] for a separator of one character.  Python never returns
    an empty list here, so the result is the first piece and the list of the
    remaining pieces. *)
Fixpoint split (sep : char) (s : str) : str * list str :=
  match s with
  | [] => ([], [])
  | c :: s' =>
      let '(piece, pieces) := split sep s' in
      if c =? sep then ([], piece :: pieces) else (c :: piece, pieces)
  end.

(** [s.endswith(c)] for a suffix of one character. *)
Fixpoint endswith (s : str) (c : char) : bool :=
  match s with
  | [] => false
  | [d] => d =? c
  | _ :: s' => endswith s' c
  end.

(** [s.startswith(p)] *)
Fixpoint startswith (s p : str) : bool :=
  match p, s with
  | [], _ => true
  | _ :: _, [] => false
  | d :: p', c :: s' => (c =? d) && startswith s' p'
  end.

(** [s[:-1]] *)
Definition drop_last (s : str) : str := removelast s.

(** ASCII lowercasing; it agrees with [str.lower] on ASCII text and is used
    to run the embedding on concrete ASCII inputs. *)
Definition ascii_lower_char (c : char) : char :=
  if (65 <=? c) && (c <=? 90) then c + 32 else c.

Definition ascii_lower (s : str) : str := map ascii_lower_char s.

End Str.

Import Str.

(** ** The statement reconstructor: [iter_statements] *)

(** [line.split("!")[0].strip()] *)
Definition uncomment (line : str) : str := strip (fst (split bang line)).

(** The [for] loop of [iter_statements], started with [buffer]; the result
    is the list of yielded statements, the last one being the [yield buffer]
    that follows the loop. *)
Fixpoint iter_statements_from (buffer : str) (content : list str) : list str :=
  match content with
  | [] => [buffer]
  | line :: content' =>
      let line := uncomment line in
      if endswith line ampersand
      then iter_statements_from (buffer ++ drop_last line) content'
      else (buffer ++ line) :: iter_statements_from [] content'
  end.

Definition iter_statements (content : list str) : list str :=
  iter_statements_from [] content.

(** ** Exceptions, results and generators *)

(** The exception classes the code can raise. *)
Inductive exc_class :=
  | BaseException | Exception | AttributeError | TypeError | NameError
  | UnboundLocalError | LookupError | KeyError | PatternError.

Global Instance exc_class_eq_dec : EqDecision exc_class.
Proof. solve_decision. Defined.

(** The direct base class. *)
Definition exc_base (c : exc_class) : option exc_class :=
  match c with
  | BaseException => None
  | Exception => Some BaseException
  | AttributeError | TypeError | NameError | LookupError | PatternError =>
      Some Exception
  | UnboundLocalError => Some NameError
  | KeyError => Some LookupError
  end.

Definition exc_name (c : exc_class) : string :=
  match c with
  | BaseException => "BaseException"
  | Exception => "Exception"
  | AttributeError => "AttributeError"
  | TypeError => "TypeError"
  | NameError => "NameError"
  | UnboundLocalError => "UnboundLocalError"
  | LookupError => "LookupError"
  | KeyError => "KeyError"
  | PatternError => "PatternError"
  end.

(** [issubclass(c, d)]; the hierarchy above is four classes deep. *)
Fixpoint exc_issubclass_upto (depth : nat) (c d : exc_class) : bool :=
  bool_decide (c = d)
  || match depth, exc_base c with
     | S depth', Some b => exc_issubclass_upto depth' b d
     | _, _ => false
     end.

Definition exc_issubclass : exc_class → exc_class → bool :=
  exc_issubclass_upto 4.

(** A raised exception: its class and its argument (a message, or the name
    that could not be resolved). *)
Record exn := Exn { exn_class : exc_class; exn_arg : string }.

(** [isinstance(e, c)] *)
Definition isinstance_exn (e : exn) (c : exc_class) : bool :=
  exc_issubclass (exn_class e) c.

(** The outcome of evaluating an expression or running a function. *)
Inductive result (A : Type) :=
  | Ok (a : A)
  | Raise (e : exn).
Arguments Ok {A} a.
Arguments Raise {A} e.

Global Instance result_ret : MRet result := λ A a, Ok a.
Global Instance result_bind : MBind result := λ A B f m,
  match m with
  | Ok a => f a
  | Raise e => Raise e
  end.

(** A generator run to its end: the values it yields, in order, and how it
    stops ([Ok] at [StopIteration], [Raise] when an exception escapes). *)
Record gen (Y A : Type) := Gen { yielded : list Y; outcome : result A }.
Arguments Gen {Y A} yielded outcome.
Arguments yielded {Y A} g.
Arguments outcome {Y A} g.

Global Instance gen_ret {Y} : MRet (gen Y) := λ A a, Gen [] (Ok a).
Global Instance gen_bind {Y} : MBind (gen Y) := λ A B f m,
  match outcome m with
  | Ok a => Gen (yielded m ++ yielded (f a)) (outcome (f a))
  | Raise e => Gen (yielded m) (Raise e)
  end.

(** [yield y] *)
Definition yield {Y} (y : Y) : gen Y unit := Gen [y] (Ok tt).

(** An expression evaluated inside a generator body. *)
Definition lift {Y A} (r : result A) : gen Y A := Gen [] r.

(** [list(g)] *)
Definition list_of_gen {Y A} (g : gen Y A) : result (list Y) :=
  match outcome g with
  | Ok _ => Ok (yielded g)
  | Raise e => Raise e
  end.

(** [if c: body] *)
Definition when {Y} (c : bool) (body : gen Y unit) : gen Y unit :=
  if c then body else mret tt.

(** ** Values and the event classes *)

Inductive class :=
  | CObject | CEvent | CUse | CBlock | CEndOfBlock | CLoopJump
  | CCall | CGoto | CJump.

Global Instance class_eq_dec : EqDecision class.
Proof. solve_decision. Defined.

(** The functions defined in the class bodies. *)
Inductive method :=
  | Event_init | Event_str | Use_init | Block_init | EndOfBlock_init
  | LoopJump_ini | Call_init | Goto_init | Jump_init.

(** Python values: [None], booleans, strings, lists, match objects (the
    text of each group that took part in the match), instances (class and
    attribute dictionary) and the functions found on a class. *)
#[warnings="-register-all"]
Inductive val :=
  | VNone
  | VBool (b : bool)
  | VStr (s : str)
  | VList (l : list val)
  | VMatch (groups : gmap nat str)
  | VObj (c : class) (attrs : gmap string val)
  | VMethod (m : method).

(** [class C(B)] *)
Definition base (c : class) : option class :=
  match c with
  | CObject => None
  | CEvent | CCall | CGoto => Some CObject
  | CUse | CBlock | CEndOfBlock | CLoopJump | CJump => Some CEvent
  end.

(** The names bound in each class body. *)
Definition class_dict (c : class) : gmap string method :=
  match c with
  | CObject => ∅
  | CEvent => <["__init__" := Event_init]> (<["__str__" := Event_str]> ∅)
  | CUse => <["__init__" := Use_init]> ∅
  | CBlock => <["__init__" := Block_init]> ∅
  | CEndOfBlock => <["__init__" := EndOfBlock_init]> ∅
  | CLoopJump => <["__ini__" := LoopJump_ini]> ∅
  | CCall => <["__init__" := Call_init]> ∅
  | CGoto => <["__init__" := Goto_init]> ∅
  | CJump => <["__init__" := Jump_init]> ∅
  end.

Definition class_name (c : class) : string :=
  match c with
  | CObject => "object"
  | CEvent => "Event"
  | CUse => "Use"
  | CBlock => "Block"
  | CEndOfBlock => "EndOfBlock"
  | CLoopJump => "LoopJump"
  | CCall => "Call"
  | CGoto => "Goto"
  | CJump => "Jump"
  end.

(** The method resolution order; the hierarchy is three classes deep. *)
Fixpoint mro_upto (depth : nat) (c : class) : list class :=
  c :: match depth, base c with
       | S depth', Some b => mro_upto depth' b
       | _, _ => []
       end.

Definition mro : class → list class := mro_upto 3.

(** The function a name resolves to along a list of classes, with the
    classes that follow the one that binds it. *)
Fixpoint resolve (classes : list class) (name : string)
    : option (method * list class) :=
  match classes with
  | [] => None
  | c :: classes' =>
      match class_dict c !! name with
      | Some m => Some (m, classes')
      | None => resolve classes' name
      end
  end.

(** [self.name = v] *)
Definition set_attr (self : val) (name : string) (v : val) : val :=
  match self with
  | VObj c attrs => VObj c (<[name := v]> attrs)
  | _ => self
  end.

(** [self.name]: the instance dictionary first, then the classes. *)
Definition get_attr (self : val) (name : string) : result val :=
  match self with
  | VObj c attrs =>
      match attrs !! name with
      | Some v => Ok v
      | None =>
          match resolve (mro c) name with
          | Some (m, _) => Ok (VMethod m)
          | None => Raise (Exn AttributeError name)
          end
      end
  | _ => Raise (Exn AttributeError name)
  end.

(** [str(type(self))], for the module imported as [fortrunner.follow]. *)
Definition type_repr (self : val) : str :=
  match self with
  | VObj c _ =>
      of_string ("<class 'fortrunner.follow." +:+ class_name c +:+ "'>")
  | VNone => of_string "<class 'NoneType'>"
  | VBool _ => of_string "<class 'bool'>"
  | VStr _ => of_string "<class 'str'>"
  | VList _ => of_string "<class 'list'>"
  | VMatch _ => of_string "<class 're.Match'>"
  | VMethod _ => of_string "<class 'function'>"
  end.

(** [a + b] on strings. *)
Definition add (a b : val) : result val :=
  match a, b with
  | VStr s, VStr t => Ok (VStr (s ++ t))
  | _, _ => Raise (Exn TypeError "unsupported operand type(s) for +")
  end.

Definition arity_error : exn := Exn TypeError "wrong number of arguments".

(** The body of each function of the class bodies, run on [self] and the
    positional arguments; [super_init] is [super().__init__].  The result is
    [self] after the call and the returned value. *)
Definition run_method (m : method)
    (super_init : val → list val → result (val * val))
    (self : val) (args : list val) : result (val * val) :=
  match m, args with
  | Event_init, [statement] =>
      Ok (set_attr self "statement" statement, VNone)
  | Event_str, [] =>
      statement ← get_attr self "statement";
      left ← add statement (VStr (of_string " |=| "));
      text ← add left (VStr (type_repr self));
      Ok (self, text)
  | Use_init, [statement; modname] =>
      '(self, _) ← super_init self [statement];
      Ok (set_attr self "modname" modname, VNone)
  | Block_init, [statement; finite] =>
      '(self, _) ← super_init self [statement];
      Ok (set_attr self "finite" finite, VNone)
  | EndOfBlock_init, [statement] =>
      Ok (self, VNone)
  | LoopJump_ini, [leave] =>
      Ok (set_attr self "leave" leave, VNone)
  | Call_init, [target_name] =>
      Ok (set_attr self "target_name" target_name, VNone)
  | Goto_init, [label_name] =>
      Ok (set_attr self "label_name" label_name, VNone)
  | Jump_init, [statement; target] =>
      '(self, _) ← super_init self [statement];
      Ok (set_attr self "target" target, VNone)
  | _, _ => Raise arity_error
  end.

(** [__init__] looked up along [classes] and called; below every class of
    the file lies [object.__init__], which takes no argument. *)
Fixpoint init_along (classes : list class) (self : val) (args : list val)
    : result (val * val) :=
  match classes with
  | [] =>
      match args with
      | [] => Ok (self, VNone)
      | _ => Raise arity_error
      end
  | c :: classes' =>
      match class_dict c !! "__init__" with
      | Some m => run_method m (init_along classes') self args
      | None => init_along classes' self args
      end
  end.

(** [C(args)]: a fresh instance, initialised by the [__init__] its class
    resolves to. *)
Definition construct (c : class) (args : list val) : result val :=
  '(self, _) ← init_along (mro c) (VObj c ∅) args;
  Ok self.

(** [self.name(args)] for a name bound in a class body of the file. *)
Definition call_method (self : val) (name : string) (args : list val)
    : result val :=
  match self with
  | VObj c _ =>
      match resolve (mro c) name with
      | Some (m, classes') =>
          '(_, v) ← run_method m (init_along classes') self args;
          Ok v
      | None => Raise (Exn AttributeError name)
      end
  | _ => Raise (Exn AttributeError name)
  end.

(** [str(self)] for an instance of [Event] or of one of its subclasses. *)
Definition to_str (self : val) : result val := call_method self "__str__" [].

(** ** Regular expressions *)

Module Re.

(** One item of a bracketed character set. *)
Inductive set_item :=
  | One (c : char)          (* a literal character *)
  | Range (lo hi : char)    (* lo-hi *)
  | Space.                  (* \s *)

Definition item_matches (i : set_item) (c : char) : bool :=
  match i with
  | One d => c =? d
  | Range lo hi => (lo <=? c) && (c <=? hi)
  | Space => isspace c
  end.

(** The patterns of the source, as syntax trees. *)
Inductive regex :=
  | Bol                                  (* ^ *)
  | Eol                                  (* $ *)
  | Lit (s : str)                        (* literal text *)
  | Set_ (items : list set_item)         (* [...] and \s *)
  | NotSet (items : list set_item)       (* [^...] *)
  | Cat (r1 r2 : regex)
  | Alt (r1 r2 : regex)                  (* r1|r2 *)
  | Opt (r : regex)                      (* r? *)
  | Star (r : regex)                     (* r* *)
  | Plus (r : regex)                     (* r+ *)
  | Group (n : nat) (r : regex).         (* the n-th parenthesis *)

(** The groups that took part in a match. *)
Abbreviation groups := (gmap nat str).

(** A matcher state: the offset in the subject, the text that remains and
    the groups so far. *)
Definition cont := nat → str → groups → option (nat * groups).

Definition or_else {A} (a b : option A) : option A :=
  match a with
  | Some _ => a
  | None => b
  end.

(** Greedy repetition of [step], which must consume text to be repeated;
    [fuel] bounds the number of rounds by the length of the subject. *)
Fixpoint repeat (step : nat → str → groups → cont → option (nat * groups))
    (fuel : nat) (pos : nat) (s : str) (g : groups) (k : cont)
    : option (nat * groups) :=
  match fuel with
  | O => k pos s g
  | S fuel' =>
      or_else
        (step pos s g (λ pos' s' g',
           if (length s' <? length s)%nat
           then repeat step fuel' pos' s' g' k
           else None))
        (k pos s g)
  end.

(** Backtracking matching in the order of Python's engine: the first
    alternative first, repetitions greedy, and [k] deciding whether the rest
    of the pattern matches. *)
Fixpoint run (r : regex) (pos : nat) (s : str) (g : groups) (k : cont)
    : option (nat * groups) :=
  match r with
  | Bol => if (pos =? 0)%nat then k pos s g else None
  | Eol =>
      match s with
      | [] => k pos s g
      | [c] => if c =? 10 then k pos s g else None
      | _ => None
      end
  | Lit l =>
      if startswith s l
      then k (pos + length l)%nat (drop (length l) s) g
      else None
  | Set_ items =>
      match s with
      | c :: s' =>
          if existsb (λ i, item_matches i c) items
          then k (S pos) s' g else None
      | [] => None
      end
  | NotSet items =>
      match s with
      | c :: s' =>
          if existsb (λ i, item_matches i c) items
          then None else k (S pos) s' g
      | [] => None
      end
  | Cat r1 r2 => run r1 pos s g (λ pos' s' g', run r2 pos' s' g' k)
  | Alt r1 r2 => or_else (run r1 pos s g k) (run r2 pos s g k)
  | Opt r1 => or_else (run r1 pos s g k) (k pos s g)
  | Star r1 => repeat (run r1) (length s) pos s g k
  | Plus r1 =>
      run r1 pos s g (λ pos' s' g', repeat (run r1) (length s') pos' s' g' k)
  | Group n r1 =>
      run r1 pos s g (λ pos' s' g',
        k pos' s' (<[n := take (pos' - pos) s]> g'))
  end.

Definition stop : cont := λ pos _ g, Some (pos, g).

(** [re.match(pattern, string)]: a match at the start of the subject. *)
Definition match_ (r : regex) (s : str) : option groups :=
  snd <$> run r 0 s ∅ stop.

(** A match at the leftmost offset from [pos] on. *)
Fixpoint search_from (r : regex) (pos : nat) (s : str) : option groups :=
  match run r pos s ∅ stop with
  | Some (_, g) => Some g
  | None =>
      match s with
      | [] => None
      | _ :: s' => search_from r (S pos) s'
      end
  end.

(** [re.search(pattern, string)] *)
Definition search (r : regex) (s : str) : option groups := search_from r 0 s.

(** [r1 r2 ... rn] *)
Fixpoint seq (rs : list regex) : regex :=
  match rs with
  | [] => Lit []
  | [r] => r
  | r :: rs' => Cat r (seq rs')
  end.

Definition lit (s : string) : regex := Lit (of_string s).

(** [\s] *)
Definition space : regex := Set_ [Space].

(** The character sets of the source.  [A-z] runs from code point 65 to
    122 and so also holds the six characters between "Z" and "a". *)
Definition digit_0_9 : set_item := Range 48 57.
Definition upper_A_to_lower_z : set_item := Range 65 122.
Definition underscore : set_item := One 95.
Definition percent : set_item := One 37.
Definition lparen : set_item := One 40.
Definition rparen : set_item := One 41.

End Re.

(** The patterns of [collect_routines]. *)

(** [^program\s+([0-9A-z_]+)] *)
Definition program_re : Re.regex :=
  Re.seq [Re.Bol; Re.lit "program"; Re.Plus Re.space;
          Re.Group 1 (Re.Plus (Re.Set_
            [Re.digit_0_9; Re.upper_A_to_lower_z; Re.underscore]))].

(** [^module\s+([0-9A-z_]+)] *)
Definition module_re : Re.regex :=
  Re.seq [Re.Bol; Re.lit "module"; Re.Plus Re.space;
          Re.Group 1 (Re.Plus (Re.Set_
            [Re.digit_0_9; Re.upper_A_to_lower_z; Re.underscore]))].

(** [^subroutine\s+([A-z0-9_]+)] *)
Definition subroutine_re : Re.regex :=
  Re.seq [Re.Bol; Re.lit "subroutine"; Re.Plus Re.space;
          Re.Group 1 (Re.Plus (Re.Set_
            [Re.upper_A_to_lower_z; Re.digit_0_9; Re.underscore]))].

(** [^([A-z0-9_()]+\s+)?function\s+([A-z0-9_]+)] *)
Definition function_re : Re.regex :=
  Re.seq [Re.Bol;
          Re.Opt (Re.Group 1 (Re.Cat
            (Re.Plus (Re.Set_ [Re.upper_A_to_lower_z; Re.digit_0_9;
                               Re.underscore; Re.lparen; Re.rparen]))
            (Re.Plus Re.space)));
          Re.lit "function"; Re.Plus Re.space;
          Re.Group 2 (Re.Plus (Re.Set_
            [Re.upper_A_to_lower_z; Re.digit_0_9; Re.underscore]))].

(** [^end(\s+(subroutine|function))?$] *)
Definition end_re : Re.regex :=
  Re.seq [Re.Bol; Re.lit "end";
          Re.Opt (Re.Group 1 (Re.Cat (Re.Plus Re.space)
            (Re.Group 2 (Re.Alt (Re.lit "subroutine") (Re.lit "function")))));
          Re.Eol].

(** The patterns of [interpret_statement].  A pattern Python cannot compile
    is [None]. *)

(** [([0-9A-z_%]+)\s*\(] *)
Definition call_expression_re : option Re.regex :=
  Some (Re.seq [Re.Group 1 (Re.Plus (Re.Set_
                  [Re.digit_0_9; Re.upper_A_to_lower_z; Re.underscore;
                   Re.percent]));
                Re.Star Re.space; Re.lit "("]).

(** [^(if|select\s+case)\s*(], whose last parenthesis is never closed. *)
Definition if_select_re : option Re.regex := None.

(** [^do] *)
Definition do_re : option Re.regex := Some (Re.seq [Re.Bol; Re.lit "do"]).

(** [^call ([^(]+)] *)
Definition call_re : option Re.regex :=
  Some (Re.seq [Re.Bol; Re.lit "call ";
                Re.Group 1 (Re.Plus (Re.NotSet [Re.lparen]))]).

(** [^goto ([0-9]+)] *)
Definition goto_re : option Re.regex :=
  Some (Re.seq [Re.Bol; Re.lit "goto ";
                Re.Group 1 (Re.Plus (Re.Set_ [Re.digit_0_9]))]).

(** [^end ] *)
Definition end_space_re : option Re.regex :=
  Some (Re.seq [Re.Bol; Re.lit "end "]).

(** [^cycle ] *)
Definition cycle_re : option Re.regex :=
  Some (Re.seq [Re.Bol; Re.lit "cycle "]).

(** [^exit ] *)
Definition exit_re : option Re.regex :=
  Some (Re.seq [Re.Bol; Re.lit "exit "]).

(** [^use ([0-9A-z]+)] *)
Definition use_re : option Re.regex :=
  Some (Re.seq [Re.Bol; Re.lit "use ";
                Re.Group 1 (Re.Plus (Re.Set_
                  [Re.digit_0_9; Re.upper_A_to_lower_z]))]).

(** ** Module [re] as the source calls it *)

(** The attributes of module [re] the source names. *)
Inductive re_attribute := searchiter | search | match_.

(** Those that exist. *)
Inductive re_function := FnSearch | FnMatch.

(** [re.name]: the module has [search] and [match], and no [searchiter]. *)
Definition re_getattr (name : re_attribute) : result re_function :=
  match name with
  | searchiter => Raise (Exn AttributeError "searchiter")
  | search => Ok FnSearch
  | match_ => Ok FnMatch
  end.

Definition match_val (m : option (gmap nat str)) : val :=
  match m with
  | Some g => VMatch g
  | None => VNone
  end.

(** [f(pattern)] and [f(pattern, string)]: [string] is the second positional
    argument when the call has one.  The argument is required, and the
    pattern is compiled once the arguments are bound. *)
Definition re_call (f : re_function) (pattern : option Re.regex)
    (string : option val) : result val :=
  match string with
  | None =>
      Raise (Exn TypeError "missing 1 required positional argument: 'string'")
  | Some subject =>
      match pattern with
      | None => Raise (Exn PatternError "missing ), unterminated subpattern")
      | Some r =>
          match subject with
          | VStr s =>
              Ok (match_val match f with
                            | FnSearch => Re.search r s
                            | FnMatch => Re.match_ r s
                            end)
          | _ => Raise (Exn TypeError "expected string or bytes-like object")
          end
      end
  end.

(** [m.group(n)], for a group [n] of the pattern: its text, or [None] when
    the group took no part in the match. *)
Definition group_of (g : gmap nat str) (n : nat) : val :=
  match g !! n with
  | Some s => VStr s
  | None => VNone
  end.

Definition group (m : val) (n : nat) : result val :=
  match m with
  | VMatch g => Ok (group_of g n)
  | _ => Raise (Exn AttributeError "group")
  end.

(** [v is not None] *)
Definition is_not_none (v : val) : bool :=
  match v with
  | VNone => false
  | _ => true
  end.

(** [name in func_names] *)
Definition contains (func_names : list str) (name : val) : bool :=
  match name with
  | VStr s => bool_decide (s ∈ func_names)
  | _ => false
  end.

(** [for x in xs: body] inside a generator. *)
Fixpoint for_items {Y} (xs : list val) (body : val → gen Y unit)
    : gen Y unit :=
  match xs with
  | [] => mret tt
  | x :: xs' => body x;; for_items xs' body
  end.

Definition for_each {Y} (xs : val) (body : val → gen Y unit) : gen Y unit :=
  match xs with
  | VList l => for_items l body
  | VStr s => for_items (map (λ c, VStr [c]) s) body
  | _ => lift (Raise (Exn TypeError "object is not iterable"))
  end.

(** A name read where neither the function, nor the module, nor the
    builtins bind it. *)
Definition unbound_name (name : string) : result val :=
  Raise (Exn NameError name).

(** A local variable read: [None] is a variable not yet assigned. *)
Definition load_local {A} (v : option A) (name : string) : result A :=
  match v with
  | Some a => Ok a
  | None => Raise (Exn UnboundLocalError name)
  end.

Section Follow.

(** [str.lower], the Unicode case mapping of the interpreter. *)
Variable lower : str → str.

(** ** The statement classifier: [interpret_statement] *)

Definition interpret_statement (statement : str) (func_names : list str)
    : gen val unit :=
  let statement := strip (lower statement) in
  (* check for function calls *)
  matches ← lift (f ← re_getattr searchiter;
                  re_call f call_expression_re None);
  for_each matches (λ m,
    name ← lift (group m 1);
    when (contains func_names name)
      (v ← lift (group m 1); yield v));;
  m ← lift (f ← re_getattr search; re_call f if_select_re None);
  when (is_not_none m)
    (e ← lift (construct CBlock [VStr statement; VBool true]); yield e);;
  m ← lift (f ← re_getattr search; re_call f do_re None);
  when (is_not_none m)
    (e ← lift (construct CBlock [VStr statement; VBool false]); yield e);;
  m ← lift (f ← re_getattr search; re_call f call_re None);
  when (is_not_none m)
    (e ← lift (name ← group m 1;
               target ← construct CCall [name];
               construct CJump [VStr statement; target]);
     yield e);;
  m ← lift (f ← re_getattr search; re_call f goto_re None);
  when (is_not_none m)
    (e ← lift (label ← group m 1;
               target ← construct CGoto [label];
               construct CJump [VStr statement; target]);
     yield e);;
  m ← lift (f ← re_getattr search; re_call f end_space_re None);
  when (is_not_none m)
    (e ← lift (construct CEndOfBlock [VStr statement]); yield e);;
  m ← lift (f ← re_getattr search; re_call f cycle_re None);
  when (is_not_none m)
    (e ← lift (target ← construct CLoopJump [VBool false];
               construct CJump [VStr statement; target]);
     yield e);;
  m ← lift (f ← re_getattr search; re_call f exit_re None);
  when (is_not_none m)
    (e ← lift (target ← construct CLoopJump [VBool true];
               construct CJump [VStr statement; target]);
     yield e);;
  m ← lift (f ← re_getattr search;
            line ← unbound_name "line";
            re_call f use_re (Some line));
  when (is_not_none m)
    (e ← lift (modname ← group m 1;
               construct CUse [VStr statement; modname]);
     yield e);;
  (* Anything else *)
  e ← lift (construct CEvent [VStr statement]);
  yield e.

(** ** The routine catalogue: [collect_routines] *)

(** [line.split("!")[0].lower().strip()] *)
Definition normalize (line : str) : str :=
  strip (lower (fst (split bang line))).

(** The locals the first loop assigns: [ftype] has no value before the
    loop, [fname] starts as [None]. *)
Record header := Header { ftype : option str; fname : val }.

(** The first loop, which stops at the first line that decides. *)
Fixpoint detect_header (lines : list str) (h : header) : header :=
  match lines with
  | [] => h
  | line :: lines' =>
      let line := normalize line in
      match Re.search program_re line with
      | Some m => Header (Some (of_string "program")) (group_of m 1)
      | None =>
          match Re.search module_re line with
          | Some m => Header (Some (of_string "module")) (group_of m 1)
          | None =>
              if startswith line (of_string "subroutine")
              then Header (Some (of_string "flat")) (fname h)
              else detect_header lines' h
          end
      end
  end.

(** One entry of the routine list: [(routine_name, start, i)]. *)
Definition routine : Type := val * nat * nat.

(** The locals of [iter_routines] after the header tests of line [i]. *)
Definition open_routine (i : nat) (line : str)
    (start : option nat) (routine_name : option val)
    : option nat * option val :=
  match Re.search subroutine_re line with
  | Some m => (Some i, Some (group_of m 1))
  | None =>
      match Re.search function_re line with
      | Some m => (Some i, Some (group_of m 2))
      | None => (start, routine_name)
      end
  end.

(** The loop of [iter_routines] from line [i] on, with the locals [start]
    and [routine_name] as they are on entry. *)
Fixpoint iter_routines_from (i : nat)
    (start : option nat) (routine_name : option val) (lines : list str)
    : gen routine unit :=
  match lines with
  | [] => mret tt
  | line :: lines' =>
      let line := normalize line in
      let '(start, routine_name) := open_routine i line start routine_name in
      when (bool_decide (is_Some (Re.match_ end_re line)))
        (name ← lift (load_local routine_name "routine_name");
         first ← lift (load_local start "start");
         yield (name, first, i));;
      iter_routines_from (S i) start routine_name lines'
  end.

Definition iter_routines (lines : list str) : gen routine unit :=
  iter_routines_from 0 None None lines.

(** [collect_routines], from the lines [f.readlines()] gives. *)
Definition collect_routines (lines : list str)
    : result (str * val * list routine) :=
  let h := detect_header lines (Header None VNone) in
  kind ← load_local (ftype h) "ftype";
  routines ← list_of_gen (iter_routines lines);
  Ok (kind, fname h, routines).

End Follow.

(** ** The flow tracer: [follow_flow] *)

(** [routines] is the callable asked for the lines of a routine. *)
Definition follow_flow (routines : str → Z → Z → result (list str))
    (start_routine : str) (line : Z) : result (list str) :=
  Raise (Exn Exception "not implemented").

(** ** Notions used in the statements *)

(** A raw line that continues on the next one. *)
Definition continued (line : str) : bool := endswith (uncomment line) ampersand.

(** The number of raw lines that end a statement. *)
Definition count_terminated (content : list str) : nat :=
  length (filter (λ line, continued line = false) content).

(** The text a run of continued lines leaves in the buffer. *)
Definition joined (run : list str) : str :=
  concat (map (λ line, drop_last (uncomment line)) run).

(** The continued lines read since the last line that ended a statement,
    [acc] being those read before [content]. *)
Fixpoint pending_from (acc : list str) (content : list str) : list str :=
  match content with
  | [] => acc
  | line :: content' =>
      if continued line
      then pending_from (acc ++ [line]) content'
      else pending_from [] content'
  end.

Definition pending : list str → list str := pending_from [].

(** A character is white space. *)
Definition blank (c : char) : Prop := isspace c = true.

(** A text with no white space at either end. *)
Definition trimmed (s : str) : Prop :=
  match head s, last s with
  | Some c, Some d => isspace c = false ∧ isspace d = false
  | _, _ => s = []
  end.

Section Catalogue.

Variable lower : str → str.

(** A line that opens a routine for [iter_routines]. *)
Definition opens_routine (line : str) : bool :=
  bool_decide (is_Some (Re.search subroutine_re (normalize lower line)))
  || bool_decide (is_Some (Re.search function_re (normalize lower line))).

(** A line that closes a routine for [iter_routines]. *)
Definition closes_routine (line : str) : bool :=
  bool_decide (is_Some (Re.match_ end_re (normalize lower line))).

(** A line at which the first loop of [collect_routines] stops. *)
Definition decides_kind (line : str) : bool :=
  bool_decide (is_Some (Re.search program_re (normalize lower line)))
  || bool_decide (is_Some (Re.search module_re (normalize lower line)))
  || startswith (normalize lower line) (of_string "subroutine").

End Catalogue.

(** A lookup in which only routine [a] is known; its body is the single
    line [call unknown_sub]. *)
Definition only_routine_a (name : str) (first last : Z) : result (list str) :=
  if bool_decide (name = of_string "a")
  then Ok [of_string "call unknown_sub"]
  else Raise (Exn KeyError "no such routine").

(** The text a raw line adds to the buffer: the line without its comment,
    trimmed, and without the continuation marker when it has one. *)
Definition contribution (line : str) : str :=
  if continued line then drop_last (uncomment line) else uncomment line.

Section CatalogueNotions.

Variable lower : str → str.

(** The name [iter_routines] takes from a line that opens a routine. *)
Definition opened_name (line : str) : option val :=
  match Re.search subroutine_re (normalize lower line) with
  | Some m => Some (group_of m 1)
  | None =>
      match Re.search function_re (normalize lower line) with
      | Some m => Some (group_of m 2)
      | None => None
      end
  end.

(** The indices, counted from [i], of the lines that close a routine. *)
Fixpoint closing_from (i : nat) (lines : list str) : list nat :=
  match lines with
  | [] => []
  | line :: lines' =>
      if closes_routine lower line
      then i :: closing_from (S i) lines'
      else closing_from (S i) lines'
  end.

(** What [iter_routines] reports for a closing line [e] of [lines]: the
    routine was opened at line [s] under the name [n], and no line after [s]
    up to [e] opens another. *)
Definition reported (lines : list str) (n : val) (s e : nat) : Prop :=
  (s ≤ e)%nat
  ∧ (∃ l, lines !! s = Some l ∧ opened_name l = Some n)
  ∧ (∃ l, lines !! e = Some l ∧ closes_routine lower l = true)
  ∧ (∀ j l, (s < j)%nat → (j ≤ e)%nat → lines !! j = Some l →
            opens_routine lower l = false).

(** The locals [start] and [routine_name] of [iter_routines] once the
    lines [before] have been read: unassigned when none of them opens a
    routine, and otherwise the index and the name of the last that does. *)
Definition tracks (before : list str)
    (start : option nat) (routine_name : option val) : Prop :=
  match start, routine_name with
  | Some s, Some n =>
      (∃ l, before !! s = Some l ∧ opened_name l = Some n)
      ∧ (∀ j l, (s < j)%nat → before !! j = Some l →
                opens_routine lower l = false)
  | None, None => Forall (λ l, opens_routine lower l = false) before
  | _, _ => False
  end.

(** Every line that closes a routine has a line that opens one at or
    before it. *)
Definition closings_follow_opening (lines : list str) : Prop :=
  ∀ i l, lines !! i = Some l → closes_routine lower l = true →
    ∃ j l', (j ≤ i)%nat ∧ lines !! j = Some l'
            ∧ opens_routine lower l' = true.

End CatalogueNotions.

(** The kinds [collect_routines] can return. *)
Definition kinds : list str :=
  [of_string "program"; of_string "module"; of_string "flat"].

(** A character of [[A-z0-9_]], the set of the routine names. *)
Definition name_char (c : char) : Prop :=
  existsb (λ i, Re.item_matches i c)
    [Re.upper_A_to_lower_z; Re.digit_0_9; Re.underscore] = true.

(** A character of [[A-z0-9_()]], the set of the word before "function". *)
Definition prefix_char (c : char) : Prop :=
  existsb (λ i, Re.item_matches i c)
    [Re.upper_A_to_lower_z; Re.digit_0_9; Re.underscore; Re.lparen;
     Re.rparen] = true.

(** A non-empty run of white space. *)
Definition spaces (ws : str) : Prop := ws ≠ [] ∧ Forall blank ws.

(** A text that starts with a routine name after "subroutine" or
    "function" and white space. *)
Definition names_routine (keyword : string) (text : str) : Prop :=
  ∃ ws name rest,
    text = of_string keyword ++ ws ++ name ++ rest
    ∧ spaces ws ∧ name ≠ [] ∧ Forall name_char name.

(** The normalized lines that close a routine. *)
Definition closing_text (text : str) : Prop :=
  text = of_string "end"
  ∨ ∃ ws, spaces ws
          ∧ (text = of_string "end" ++ ws ++ of_string "subroutine"
             ∨ text = of_string "end" ++ ws ++ of_string "function").

(** The normalized lines that open a routine. *)
Definition opening_text (text : str) : Prop :=
  names_routine "subroutine" text
  ∨ names_routine "function" text
  ∨ ∃ word ws text',
      text = word ++ ws ++ text'
      ∧ word ≠ [] ∧ Forall prefix_char word ∧ spaces ws
      ∧ names_routine "function" text'.

(** * Properties *)

(** ** String helpers *)

Lemma endswith_drop_last (s : str) (c : char) :
  endswith s c = true → s = drop_last s ++ [c].
Proof.
  induction s as [|d s IH]; simpl; [discriminate|].
  destruct s as [|d' s'].
  - intros H. apply N.eqb_eq in H. by subst.
  - intros H. specialize (IH H). simpl in IH. simpl. congruence.
Qed.

Lemma split_first_piece (sep : char) (s : str) :
  (sep ∉ fst (split sep s))
  ∧ (s = fst (split sep s) ∨ ∃ rest, s = fst (split sep s) ++ sep :: rest).
Proof.
  induction s as [|c s [IHn IHs]]; simpl.
  - split; [apply not_elem_of_nil | by left].
  - destruct (split sep s) as [piece pieces] eqn:E. simpl in *.
    destruct (c =? sep) eqn:Ec; simpl.
    + apply N.eqb_eq in Ec. subst c.
      split; [apply not_elem_of_nil | right; by exists s].
    + apply N.eqb_neq in Ec. split.
      * rewrite not_elem_of_cons. split; [congruence | done].
      * destruct IHs as [->|[rest ->]]; [by left | right; by exists rest].
Qed.

Lemma lstrip_spec (s : str) :
  ∃ l, s = l ++ lstrip s ∧ Forall blank l
       ∧ match head (lstrip s) with
         | Some c => isspace c = false
         | None => True
         end.
Proof.
  induction s as [|c s (l & Hs & Hl & Hh)]; simpl.
  - by exists [].
  - destruct (isspace c) eqn:Ec.
    + exists (c :: l). split; [simpl; congruence|]. split; [|done].
      by constructor.
    + exists []. by simpl.
Qed.

Lemma rstrip_spec (s : str) :
  ∃ r, s = rstrip s ++ r ∧ Forall blank r
       ∧ match last (rstrip s) with
         | Some c => isspace c = false
         | None => rstrip s = []
         end.
Proof.
  induction s as [|c s (r & Hs & Hr & Hl)]; simpl.
  - by exists [].
  - destruct (rstrip s) as [|d t] eqn:Et.
    + simpl in Hs. destruct (isspace c) eqn:Ec.
      * exists (c :: r). split; [by rewrite Hs|].
        split; [|done]. by constructor.
      * exists r. split; [by rewrite Hs|]. by split.
    + exists r. split; [by rewrite Hs at 1|]. split; [done|].
      rewrite last_cons. by destruct (last (d :: t)).
Qed.

Lemma rstrip_head (s : str) : head (rstrip s) = None ∨ head (rstrip s) = head s.
Proof.
  destruct s as [|c s]; simpl; [by left|].
  destruct (rstrip s); [destruct (isspace c)|]; simpl; auto.
Qed.

Lemma strip_spec (s : str) :
  ∃ l r, s = l ++ strip s ++ r ∧ Forall blank l ∧ Forall blank r
         ∧ trimmed (strip s).
Proof.
  destruct (lstrip_spec s) as (l & Hs & Hl & Hh).
  destruct (rstrip_spec (lstrip s)) as (r & Hs' & Hr & Hd).
  exists l, r. unfold strip, trimmed.
  split; [congruence|]. split; [done|]. split; [done|].
  destruct (last (rstrip (lstrip s))) as [d|] eqn:El.
  - destruct (rstrip_head (lstrip s)) as [Hn|He].
    + destruct (rstrip (lstrip s)); [discriminate El | discriminate Hn].
    + rewrite He. destruct (head (lstrip s)); [done|].
      destruct (rstrip (lstrip s)); [discriminate El | discriminate He].
  - rewrite Hd. done.
Qed.

(** ** The statement reconstructor *)

Lemma iter_from_continued (buffer line : str) (rest : list str) :
  continued line = true →
  iter_statements_from buffer (line :: rest)
  = iter_statements_from (buffer ++ drop_last (uncomment line)) rest.
Proof. unfold continued. intros H. simpl. by rewrite H. Qed.

Lemma iter_from_terminated (buffer line : str) (rest : list str) :
  continued line = false →
  iter_statements_from buffer (line :: rest)
  = (buffer ++ uncomment line) :: iter_statements_from [] rest.
Proof. unfold continued. intros H. simpl. by rewrite H. Qed.

Lemma joined_snoc (run : list str) (line : str) :
  joined (run ++ [line]) = joined run ++ drop_last (uncomment line).
Proof.
  unfold joined. rewrite map_app, concat_app. simpl. by rewrite app_nil_r.
Qed.

Lemma iter_from_run (run : list str) :
  ∀ (buffer : str) (rest : list str),
    Forall (λ l, continued l = true) run →
    iter_statements_from buffer (run ++ rest)
    = iter_statements_from (buffer ++ joined run) rest.
Proof.
  induction run as [|l run IH]; intros buffer rest Hrun.
  - unfold joined. simpl. by rewrite app_nil_r.
  - inversion Hrun as [|? ? Hl Hrun']; subst.
    change ((l :: run) ++ rest) with (l :: (run ++ rest)).
    rewrite iter_from_continued by done. rewrite IH by done.
    unfold joined. simpl. by rewrite app_assoc.
Qed.

Lemma uncomment_spec (line : str) :
  ∃ code comment left right,
    line = code ++ comment
    ∧ (bang ∉ code)
    ∧ (comment = [] ∨ head comment = Some bang)
    ∧ code = left ++ uncomment line ++ right
    ∧ Forall blank left ∧ Forall blank right
    ∧ trimmed (uncomment line).
Proof.
  destruct (split_first_piece bang line) as [Hn Hs].
  destruct (strip_spec (fst (split bang line))) as (l & r & Hc & Hl & Hr & Ht).
  destruct Hs as [Hs|[rest Hs]].
  - exists (fst (split bang line)), [], l, r.
    rewrite app_nil_r. repeat split; auto.
  - exists (fst (split bang line)), (bang :: rest), l, r.
    repeat split; auto.
Qed.

Lemma iter_from_count (content : list str) :
  ∀ buffer, length (iter_statements_from buffer content)
            = S (count_terminated content).
Proof.
  unfold count_terminated.
  induction content as [|l content IH]; intros buffer; [done|].
  rewrite filter_cons. destruct (continued l) eqn:E.
  - rewrite iter_from_continued by done. rewrite IH.
    by destruct (decide (true = false)).
  - rewrite iter_from_terminated by done. simpl. rewrite IH.
    by destruct (decide (false = false)).
Qed.

Lemma iter_from_last (content : list str) :
  ∀ acc, last (iter_statements_from (joined acc) content)
         = Some (joined (pending_from acc content)).
Proof.
  induction content as [|l content IH]; intros acc; [done|].
  simpl pending_from. destruct (continued l) eqn:E.
  - rewrite iter_from_continued by done. by rewrite <- joined_snoc, IH.
  - rewrite iter_from_terminated by done. rewrite last_cons.
    change (@nil char) with (joined []). by rewrite IH.
Qed.

(** C7: every raw line is cut at the first "!" and trimmed; a trimmed line
    that ends in "&" loses the marker and goes to the buffer, nothing being
    emitted; so a run of continued lines makes one statement, with the line
    that ends it or, at the end of the input, alone. *)
Theorem iter_statements_joins_continuations
    (buffer : str) (run : list str) (line : str) (rest : list str) :
  Forall (λ l, continued l = true) run →
  continued line = false →
  (∀ l, ∃ code comment left right,
      l = code ++ comment
      ∧ (bang ∉ code)
      ∧ (comment = [] ∨ head comment = Some bang)
      ∧ code = left ++ uncomment l ++ right
      ∧ Forall blank left ∧ Forall blank right
      ∧ trimmed (uncomment l))
  ∧ (∀ l, l ∈ run → uncomment l = drop_last (uncomment l) ++ [ampersand])
  ∧ (∀ l buf tail,
      l ∈ run →
      iter_statements_from buf (l :: tail)
      = iter_statements_from (buf ++ drop_last (uncomment l)) tail)
  ∧ iter_statements_from buffer (run ++ line :: rest)
    = (buffer ++ joined run ++ uncomment line) :: iter_statements_from [] rest
  ∧ iter_statements_from buffer run = [buffer ++ joined run].
Proof.
  intros Hrun Hline.
  assert (Hin : ∀ l, l ∈ run → continued l = true)
    by (by apply Forall_forall).
  split; [apply uncomment_spec|].
  split; [intros l Hl; apply endswith_drop_last, (Hin l Hl)|].
  split; [intros l buf tail Hl; apply iter_from_continued, (Hin l Hl)|].
  split.
  - rewrite iter_from_run by done. rewrite iter_from_terminated by done.
    by rewrite app_assoc.
  - rewrite <- (app_nil_r run) at 1. by rewrite iter_from_run.
Qed.

Lemma iter_statements_joins_continuations_witness :
  iter_statements
    (map of_string ["x = 1 + &"; "    2 + &  ! two"; "    3"; "y = x"])
  = map of_string ["x = 1 + 2 + 3"; "y = x"; ""].
Proof.
  destruct (iter_statements_joins_continuations []
              (map of_string ["x = 1 + &"; "    2 + &  ! two"])
              (of_string "    3") [of_string "y = x"])
    as (_ & _ & _ & H & _).
  - repeat constructor.
  - reflexivity.
  - exact H.
Defined.

(** C3, as the code has it: the reconstructor yields one statement for each
    line that is not continued and then, always, the buffer: the text of the
    continued lines read since, empty or not. *)
Theorem iter_statements_count (content : list str) :
  length (iter_statements content) = S (count_terminated content)
  ∧ last (iter_statements content) = Some (joined (pending content)).
Proof.
  split; [apply iter_from_count|].
  apply (iter_from_last content []).
Qed.

(** C3 fails on a file of one complete line: two statements are yielded for
    one line that is not continued, the second being the empty buffer. *)
Lemma iter_statements_count_counterexample :
  iter_statements [of_string "x = 1"] = [of_string "x = 1"; []]
  ∧ length (iter_statements [of_string "x = 1"])
    ≠ count_terminated [of_string "x = 1"].
Proof. split; [reflexivity | vm_compute; discriminate]. Qed.

(** ** The routine catalogue *)

Section CatalogueProperties.

Variable lower : str → str.

Lemma search_none_of_bool {A} (o : option A) :
  bool_decide (is_Some o) = false → o = None.
Proof.
  intros H. apply bool_decide_eq_false in H.
  destruct o; [exfalso; apply H; eauto | done].
Qed.

Lemma open_routine_unopened (i : nat) (line : str)
    (start : option nat) (routine_name : option val) :
  opens_routine lower line = false →
  open_routine i (normalize lower line) start routine_name
  = (start, routine_name).
Proof.
  unfold opens_routine, open_routine. intros H.
  apply orb_false_iff in H as [Hs Hf].
  by rewrite (search_none_of_bool _ Hs), (search_none_of_bool _ Hf).
Qed.

Lemma detect_header_undecided (lines : list str) (h : header) :
  Forall (λ l, decides_kind lower l = false) lines →
  detect_header lower lines h = h.
Proof.
  induction 1 as [|l lines Hl _ IH]; [done|].
  unfold decides_kind in Hl.
  apply orb_false_iff in Hl as [Hl Hsub].
  apply orb_false_iff in Hl as [Hp Hm].
  simpl. by rewrite (search_none_of_bool _ Hp), (search_none_of_bool _ Hm), Hsub.
Qed.

(** Without a line that decides the kind, [ftype] is read unassigned. *)
Lemma collect_routines_undecided (lines : list str) :
  Forall (λ l, decides_kind lower l = false) lines →
  collect_routines lower lines = Raise (Exn UnboundLocalError "ftype").
Proof.
  intros H. unfold collect_routines. by rewrite detect_header_undecided.
Qed.

Lemma iter_routines_from_unopened (before : list str) :
  ∀ (i : nat) (line : str) (after : list str),
    Forall (λ l, opens_routine lower l = false) before →
    opens_routine lower line = false →
    closes_routine lower line = true →
    iter_routines_from lower i None None (before ++ line :: after)
    = Gen [] (Raise (Exn UnboundLocalError "routine_name")).
Proof.
  induction before as [|l before IH]; intros i line after Hb Ho Hc.
  - simpl. rewrite open_routine_unopened by done.
    unfold closes_routine in Hc. by rewrite Hc.
  - inversion Hb as [|? ? Hl Hb']; subst.
    change ((l :: before) ++ line :: after)
      with (l :: (before ++ line :: after)).
    simpl. rewrite open_routine_unopened by done.
    destruct (bool_decide (is_Some (Re.match_ end_re (normalize lower l)))).
    + done.
    + by rewrite IH.
Qed.

(** C8: when a line that closes a routine stands before every line that
    opens one, enumerating the routines reads [routine_name] unassigned:
    nothing is yielded, an [UnboundLocalError], which is a [NameError],
    escapes, and [collect_routines] raises instead of returning a list. *)
Theorem iter_routines_end_before_header
    (lines : list str) (i : nat) (line : str) :
  lines !! i = Some line →
  closes_routine lower line = true →
  (∀ j l, lines !! j = Some l → opens_routine lower l = true → (i < j)%nat) →
  iter_routines lower lines
  = Gen [] (Raise (Exn UnboundLocalError "routine_name"))
  ∧ isinstance_exn (Exn UnboundLocalError "routine_name") NameError = true
  ∧ ∃ e, collect_routines lower lines = Raise e
         ∧ exn_class e = UnboundLocalError
         ∧ isinstance_exn e NameError = true.
Proof.
  intros Hi Hc Hopen.
  assert (Hline : opens_routine lower line = false).
  { destruct (opens_routine lower line) eqn:E; [|done].
    specialize (Hopen i line Hi E). lia. }
  assert (Hbefore : Forall (λ l, opens_routine lower l = false) (take i lines)).
  { apply Forall_lookup. intros j l Hj.
    apply lookup_take_Some in Hj as [Hj Hlt].
    destruct (opens_routine lower l) eqn:E; [|done].
    specialize (Hopen j l Hj E). lia. }
  assert (Hgen : iter_routines lower lines
                 = Gen [] (Raise (Exn UnboundLocalError "routine_name"))).
  { unfold iter_routines. rewrite <- (take_drop_middle lines i line Hi).
    by apply iter_routines_from_unopened. }
  split; [done|]. split; [done|].
  unfold collect_routines. rewrite Hgen.
  destruct (ftype (detect_header lower lines (Header None VNone))); simpl.
  - by eexists.
  - by eexists.
Qed.

End CatalogueProperties.

Lemma iter_routines_end_before_header_witness :
  iter_routines ascii_lower (map of_string ["program p"; "end"])
  = Gen [] (Raise (Exn UnboundLocalError "routine_name")).
Proof.
  apply (iter_routines_end_before_header ascii_lower
           (map of_string ["program p"; "end"]) 1 (of_string "end")).
  - reflexivity.
  - vm_compute. reflexivity.
  - intros [|[|j]] l Hl Ho.
    + injection Hl as <-. vm_compute in Ho. discriminate Ho.
    + injection Hl as <-. vm_compute in Ho. discriminate Ho.
    + discriminate Hl.
Defined.

(** The catalogue of a file with a header and one closed routine. *)
Example collect_routines_program :
  collect_routines ascii_lower
    (map of_string ["Program P  ! main"; "subroutine s(x)"; "  x = 1";
                    "end subroutine"; "call s(y)"])
  = Ok (of_string "program", VStr (of_string "p"),
        [(VStr (of_string "s"), 1%nat, 3%nat)]).
Proof. vm_compute. reflexivity. Qed.

(** C4 fails on the code: on a file in which no line decides the kind (the
    empty file, or the single line [x = 1]) [collect_routines] reads [ftype]
    unassigned and raises; and with a [program] header it still raises when
    the routine list cannot be enumerated. *)
Theorem collect_routines_kind_detection_fails :
  (∀ lower, collect_routines lower []
            = Raise (Exn UnboundLocalError "ftype"))
  ∧ collect_routines ascii_lower [of_string "x = 1"]
    = Raise (Exn UnboundLocalError "ftype")
  ∧ collect_routines ascii_lower (map of_string ["program p"; "end"])
    = Raise (Exn UnboundLocalError "routine_name").
Proof. split; [done|]. split; vm_compute; reflexivity. Qed.

(** ** The event classes *)

Lemma singleton_has_no_other (x : val) (name : string) :
  name ≠ "statement" →
  (<["statement" := x]> (∅ : gmap string val)) !! name = None.
Proof. intros H. by rewrite lookup_insert_ne, lookup_empty. Qed.

(** What [Event(statement)] builds: the text it is given, as it is. *)
Lemma construct_Event (statement : val) :
  construct CEvent [statement]
  = Ok (VObj CEvent (<["statement" := statement]> ∅)).
Proof. reflexivity. Qed.

(** C9: [EndOfBlock(s)] runs the initializer of [EndOfBlock], whose body
    does not call the one of [Event]; the instance has no attribute at all,
    so reading [statement] fails, and [str] of the instance, which is
    [Event.__str__], raises [AttributeError]. *)
Theorem EndOfBlock_has_no_statement (s : str) :
  fst <$> resolve (mro CEndOfBlock) "__init__" = Some EndOfBlock_init
  ∧ construct CEndOfBlock [VStr s] = Ok (VObj CEndOfBlock ∅)
  ∧ get_attr (VObj CEndOfBlock ∅) "statement"
    = Raise (Exn AttributeError "statement")
  ∧ fst <$> resolve (mro CEndOfBlock) "__str__" = Some Event_str
  ∧ to_str (VObj CEndOfBlock ∅) = Raise (Exn AttributeError "statement").
Proof. repeat split; vm_compute; reflexivity. Qed.

(** C10: the class body of [LoopJump] binds [__ini__], so [LoopJump(x)]
    runs [Event.__init__], which stores [x] as [statement]; an instance
    never gets an attribute [leave]. *)
Theorem LoopJump_init_is_Event_init (x : val) :
  class_dict CLoopJump !! "__init__" = None
  ∧ fst <$> resolve (mro CLoopJump) "__init__" = Some Event_init
  ∧ construct CLoopJump [x]
    = Ok (VObj CLoopJump (<["statement" := x]> ∅))
  ∧ (∀ args o,
      construct CLoopJump args = Ok o →
      get_attr o "leave" = Raise (Exn AttributeError "leave")).
Proof.
  split; [vm_compute; reflexivity|].
  split; [vm_compute; reflexivity|].
  split; [reflexivity|].
  intros [|y [|z args]] o H.
  - discriminate H.
  - change (construct CLoopJump [y])
      with (Ok (A := val) (VObj CLoopJump (<["statement" := y]> ∅))) in H.
    injection H as <-. simpl.
    rewrite singleton_has_no_other by done.
    vm_compute. reflexivity.
  - discriminate H.
Qed.

Lemma LoopJump_init_is_Event_init_witness :
  construct CLoopJump [VBool true]
  = Ok (VObj CLoopJump (<["statement" := VBool true]> ∅))
  ∧ get_attr (VObj CLoopJump (<["statement" := VBool true]> ∅)) "leave"
    = Raise (Exn AttributeError "leave").
Proof.
  destruct (LoopJump_init_is_Event_init (VBool true)) as (_ & _ & Hc & Hl).
  split; [exact Hc|].
  apply (Hl [VBool true]). exact Hc.
Defined.

(** ** The statement classifier *)

(** C1 fails on the code: for every statement and every list of names the
    generator raises [AttributeError] at [re.searchiter] when it is first
    resumed, and yields no event, so no plain event either. *)
Theorem interpret_statement_raises
    (lower : str → str) (statement : str) (func_names : list str) :
  interpret_statement lower statement func_names
  = Gen [] (Raise (Exn AttributeError "searchiter")).
Proof. reflexivity. Qed.

(** C5 fails on the code: for [call foo(x)] nothing is yielded, hence no
    [Jump] with a [Call] target; the generator raises. *)
Theorem interpret_statement_call_yields_nothing
    (lower : str → str) (func_names : list str) :
  yielded (interpret_statement lower (of_string "call foo(x)") func_names)
  = []
  ∧ outcome (interpret_statement lower (of_string "call foo(x)") func_names)
    = Raise (Exn AttributeError "searchiter").
Proof. split; reflexivity. Qed.

(** C6 fails on the code: for [CALL Foo] no matching takes place and no
    event is produced; the text the events are meant to carry is the
    lowercased and trimmed copy, which an [Event] stores as it is given. *)
Theorem interpret_statement_keeps_no_text :
  interpret_statement ascii_lower (of_string "  CALL Foo") []
  = Gen [] (Raise (Exn AttributeError "searchiter"))
  ∧ strip (ascii_lower (of_string "  CALL Foo")) = of_string "call foo"
  ∧ construct CEvent [VStr (strip (ascii_lower (of_string "  CALL Foo")))]
    = Ok (VObj CEvent (<["statement" := VStr (of_string "call foo")]> ∅)).
Proof. repeat split; vm_compute; reflexivity. Qed.

(** ** The flow tracer *)

(** C2, as the code has it: whatever the lookup knows, [follow_flow] raises
    the plain [Exception] "not implemented" when it is called; it traces no
    statement. *)
Theorem follow_flow_not_implemented
    (routines : str → Z → Z → result (list str))
    (start_routine : str) (line : Z) :
  follow_flow routines start_routine line
  = Raise (Exn Exception "not implemented").
Proof. reflexivity. Qed.

(** C2 fails where [unknown_sub] is unknown and routine [a] is the line
    [call unknown_sub]: the failure is not an [UnresolvedCall]. *)
Lemma follow_flow_unresolved_call_counterexample :
  only_routine_a (of_string "unknown_sub") 0 0
  = Raise (Exn KeyError "no such routine")
  ∧ only_routine_a (of_string "a") 0 0 = Ok [of_string "call unknown_sub"]
  ∧ ¬ ∃ e, follow_flow only_routine_a (of_string "a") 0 = Raise e
           ∧ exc_name (exn_class e) = "UnresolvedCall".
Proof.
  split; [vm_compute; reflexivity|].
  split; [vm_compute; reflexivity|].
  intros (e & He & Hn).
  unfold follow_flow in He.
  injection He as <-. discriminate Hn.
Qed.

(** * Further properties *)

(** ** The statement reconstructor, continued *)

Lemma strip_subset (s : str) (c : char) : c ∈ strip s → c ∈ s.
Proof.
  destruct (strip_spec s) as (l & r & Hs & _). intros H.
  rewrite Hs. rewrite !elem_of_app. auto.
Qed.

Lemma drop_last_subset (s : str) (c : char) : c ∈ drop_last s → c ∈ s.
Proof.
  unfold drop_last. induction s as [|d s IH]; simpl; [done|].
  destruct s as [|d' s']; [by intros ?%elem_of_nil|].
  intros H. apply elem_of_cons in H as [->|H].
  - by constructor.
  - constructor. by apply IH.
Qed.

Lemma uncomment_no_bang (line : str) : bang ∉ uncomment line.
Proof.
  unfold uncomment. intros H%strip_subset.
  by apply (proj1 (split_first_piece bang line)).
Qed.

Lemma contribution_no_bang (line : str) : bang ∉ contribution line.
Proof.
  unfold contribution. destruct (continued line).
  - intros H%drop_last_subset. by apply (uncomment_no_bang line).
  - apply uncomment_no_bang.
Qed.

Lemma iter_from_step (buffer line : str) (rest : list str) :
  iter_statements_from buffer (line :: rest)
  = if continued line
    then iter_statements_from (buffer ++ contribution line) rest
    else (buffer ++ contribution line) :: iter_statements_from [] rest.
Proof.
  unfold contribution. destruct (continued line) eqn:E.
  - by apply iter_from_continued.
  - by apply iter_from_terminated.
Qed.

Lemma iter_from_concat (content : list str) :
  ∀ buffer, concat (iter_statements_from buffer content)
            = buffer ++ concat (map contribution content).
Proof.
  induction content as [|l content IH]; intros buffer.
  - simpl. by rewrite !app_nil_r.
  - rewrite iter_from_step. simpl map. simpl concat at 2.
    destruct (continued l).
    + by rewrite IH, <- app_assoc.
    + simpl. rewrite IH. simpl. by rewrite <- app_assoc.
Qed.

(** X1: the statements, put end to end, are the lines put end to end once
    each has lost its comment, the white space around it and its
    continuation marker: the reconstructor drops and repeats no text. *)
Theorem iter_statements_keeps_text (content : list str) :
  concat (iter_statements content) = concat (map contribution content).
Proof. unfold iter_statements. by rewrite iter_from_concat. Qed.

Lemma iter_from_no_bang (content : list str) :
  ∀ buffer, bang ∉ buffer →
    Forall (λ statement, bang ∉ statement)
           (iter_statements_from buffer content).
Proof.
  induction content as [|l content IH]; intros buffer Hb.
  - by repeat constructor.
  - assert (Hn : bang ∉ buffer ++ contribution l).
    { rewrite elem_of_app. intros [H|H]; [done|].
      by apply (contribution_no_bang l). }
    rewrite iter_from_step. destruct (continued l).
    + by apply IH.
    + constructor; [done|]. apply IH, not_elem_of_nil.
Qed.

(** X2: no statement the reconstructor yields holds a "!": comments never
    reach a statement. *)
Theorem iter_statements_no_comment (content : list str) :
  Forall (λ statement, bang ∉ statement) (iter_statements content).
Proof. apply iter_from_no_bang, not_elem_of_nil. Qed.

(** X3: reading [a ++ b] is reading [a] and then reading [b] with the buffer
    [a] leaves, which is the last statement [a] alone would yield; the
    statements before it are the same. *)
Theorem iter_statements_in_two_parts (buffer : str) (a b : list str) :
  ∃ statements pending_text,
    iter_statements_from buffer a = statements ++ [pending_text]
    ∧ iter_statements_from buffer (a ++ b)
      = statements ++ iter_statements_from pending_text b.
Proof.
  revert buffer. induction a as [|l a IH]; intros buffer.
  - by exists [], buffer.
  - change ((l :: a) ++ b) with (l :: (a ++ b)).
    rewrite !iter_from_step. destruct (continued l).
    + apply IH.
    + destruct (IH []) as (statements & p & Ha & Hab).
      exists ((buffer ++ contribution l) :: statements), p.
      rewrite Ha, Hab. done.
Qed.

Lemma blank_not_bang (ws : str) : Forall blank ws → bang ∉ ws.
Proof.
  intros H Hin. rewrite Forall_forall in H.
  specialize (H bang Hin). vm_compute in H. discriminate H.
Qed.

Lemma split_before_sep (sep : char) (p rest : str) :
  sep ∉ p → fst (split sep (p ++ sep :: rest)) = p.
Proof.
  induction p as [|c p IH]; intros Hn.
  - simpl. destruct (split sep rest). by rewrite N.eqb_refl.
  - apply not_elem_of_cons in Hn as [Hc Hp]. specialize (IH Hp).
    simpl. destruct (split sep (p ++ sep :: rest)) as [piece pieces].
    simpl in IH. subst piece.
    destruct (c =? sep) eqn:E; [|done].
    apply N.eqb_eq in E. congruence.
Qed.

Lemma split_without_sep (sep : char) (p : str) :
  sep ∉ p → fst (split sep p) = p.
Proof.
  induction p as [|c p IH]; intros Hn; [done|].
  apply not_elem_of_cons in Hn as [Hc Hp]. specialize (IH Hp).
  simpl. destruct (split sep p) as [piece pieces]. simpl in IH. subst piece.
  destruct (c =? sep) eqn:E; [|done].
  apply N.eqb_eq in E. congruence.
Qed.

Lemma strip_blank (ws : str) : Forall blank ws → strip ws = [].
Proof.
  unfold strip. induction 1 as [|c ws Hc _ IH]; [done|].
  simpl. unfold blank in Hc. by rewrite Hc.
Qed.

(** X4: a line of white space only, or of white space and a comment, ends
    the statement in progress with the buffer as it stands, also in the
    middle of a continuation. *)
Theorem iter_statements_blank_line_ends_statement
    (buffer ws comment : str) (rest : list str) :
  Forall blank ws →
  iter_statements_from buffer (ws :: rest)
  = buffer :: iter_statements_from [] rest
  ∧ iter_statements_from buffer ((ws ++ bang :: comment) :: rest)
    = buffer :: iter_statements_from [] rest.
Proof.
  intros Hws. pose proof (blank_not_bang ws Hws) as Hn.
  assert (H1 : uncomment ws = []).
  { unfold uncomment. rewrite split_without_sep by done. by apply strip_blank. }
  assert (H2 : uncomment (ws ++ bang :: comment) = []).
  { unfold uncomment. rewrite split_before_sep by done. by apply strip_blank. }
  split; simpl; rewrite ?H1, ?H2; simpl; by rewrite app_nil_r.
Qed.

Lemma iter_statements_blank_line_ends_statement_witness :
  iter_statements
    (map of_string ["x = 1 + &"; "   ! the second term"; "    2"])
  = map of_string ["x = 1 + "; "2"; ""].
Proof.
  destruct (iter_statements_blank_line_ends_statement
              (of_string "x = 1 + ") (of_string "   ")
              (of_string " the second term") [of_string "    2"])
    as [_ H].
  - repeat constructor.
  - unfold iter_statements.
    change (map of_string ["x = 1 + &"; "   ! the second term"; "    2"])
      with (of_string "x = 1 + &"
            :: (of_string "   " ++ bang :: of_string " the second term")
            :: [of_string "    2"]).
    rewrite iter_from_continued by reflexivity.
    exact H.
Defined.

(** ** The routine catalogue, continued *)

Lemma gen_eta {Y A} (g : gen Y A) : Gen (yielded g) (outcome g) = g.
Proof. by destruct g. Qed.

Section CatalogueMore.

Variable lower : str → str.

Lemma opened_name_opens (l : str) (n : val) :
  opened_name lower l = Some n → opens_routine lower l = true.
Proof.
  unfold opened_name, opens_routine. intros H.
  destruct (Re.search subroutine_re (normalize lower l)) as [m|].
  - apply orb_true_iff. left. apply bool_decide_eq_true. by eexists.
  - destruct (Re.search function_re (normalize lower l)) as [m|]; [|done].
    apply orb_true_iff. right. apply bool_decide_eq_true. by eexists.
Qed.

Lemma opened_name_none (l : str) :
  opened_name lower l = None ↔ opens_routine lower l = false.
Proof.
  unfold opened_name, opens_routine.
  destruct (Re.search subroutine_re (normalize lower l)) as [m|];
    [split; [done|]; intros H; apply orb_false_iff in H as [H _];
     apply bool_decide_eq_false in H; exfalso; apply H; by eexists|].
  destruct (Re.search function_re (normalize lower l)) as [m|].
  - split; [done|]. intros H. apply orb_false_iff in H as [_ H].
    apply bool_decide_eq_false in H. exfalso. apply H. by eexists.
  - split; [|done]. intros _. apply orb_false_iff.
    split; apply bool_decide_eq_false; by intros [? ?].
Qed.

Lemma iter_routines_from_step (i : nat)
    (start : option nat) (routine_name : option val)
    (l : str) (rest : list str) :
  iter_routines_from lower i start routine_name (l :: rest)
  = let '(start', name') :=
      match opened_name lower l with
      | Some n => (Some i, Some n)
      | None => (start, routine_name)
      end in
    let later := iter_routines_from lower (S i) start' name' rest in
    if closes_routine lower l
    then match name', start' with
         | Some n, Some s => Gen ((n, s, i) :: yielded later) (outcome later)
         | None, _ => Gen [] (Raise (Exn UnboundLocalError "routine_name"))
         | Some _, None => Gen [] (Raise (Exn UnboundLocalError "start"))
         end
    else later.
Proof.
  assert (Ho : open_routine i (normalize lower l) start routine_name
               = match opened_name lower l with
                 | Some n => (Some i, Some n)
                 | None => (start, routine_name)
                 end).
  { unfold open_routine, opened_name.
    destruct (Re.search subroutine_re (normalize lower l)); [done|].
    by destruct (Re.search function_re (normalize lower l)). }
  simpl. rewrite Ho. unfold closes_routine.
  destruct (match opened_name lower l with
            | Some n => (Some i, Some n)
            | None => (start, routine_name)
            end) as [start' name'].
  destruct (bool_decide (is_Some (Re.match_ end_re (normalize lower l)))).
  - destruct name' as [n|]; [|done]. by destruct start' as [s|].
  - simpl. apply gen_eta.
Qed.

Lemma tracks_snoc (before : list str) (l : str)
    (start : option nat) (routine_name : option val) :
  tracks lower before start routine_name →
  match opened_name lower l with
  | Some n => tracks lower (before ++ [l]) (Some (length before)) (Some n)
  | None => tracks lower (before ++ [l]) start routine_name
  end.
Proof.
  intros Ht. destruct (opened_name lower l) as [n|] eqn:E.
  - split.
    + exists l. split; [|done].
      by rewrite lookup_app_r, Nat.sub_diag.
    + intros j l' Hj Hl. apply lookup_lt_Some in Hl.
      rewrite length_app in Hl. simpl in Hl. lia.
  - apply opened_name_none in E. unfold tracks in *.
    destruct start as [s|], routine_name as [n|]; try done.
    + destruct Ht as [(l0 & Hl0 & Hn0) Hafter]. split.
      * exists l0. split; [|done]. by apply lookup_app_l_Some.
      * intros j l' Hj Hl. apply lookup_app_Some in Hl as [Hl|[_ Hl]].
        -- by apply (Hafter j).
        -- destruct (j - length before)%nat; [|done].
           by injection Hl as <-.
    + apply Forall_app. split; [done|]. by repeat constructor.
Qed.

Lemma iter_routines_from_reported (later : list str) :
  ∀ (before : list str) (start : option nat) (routine_name : option val),
    tracks lower before start routine_name →
    ∀ n s e,
      (n, s, e) ∈ yielded (iter_routines_from lower (length before)
                             start routine_name later) →
      reported lower (before ++ later) n s e.
Proof.
  induction later as [|l later IH]; intros before start name Ht n s e Hin.
  - by apply elem_of_nil in Hin.
  - rewrite iter_routines_from_step in Hin.
    pose proof (tracks_snoc before l start name Ht) as Ht'.
    assert (Hfull : before ++ l :: later = (before ++ [l]) ++ later)
      by (by rewrite <- app_assoc).
    assert (Hlen : S (length before) = length (before ++ [l]))
      by (rewrite length_app; simpl; lia).
    destruct (match opened_name lower l with
              | Some n0 => (Some (length before), Some n0)
              | None => (start, name)
              end) as [start' name'] eqn:Est.
    assert (Ht'' : tracks lower (before ++ [l]) start' name').
    { destruct (opened_name lower l); by injection Est as <- <-. }
    clear Ht' Est. simpl in Hin.
    assert (Hlater : (n, s, e) ∈ yielded (iter_routines_from lower
                        (S (length before)) start' name' later) →
                     reported lower (before ++ l :: later) n s e).
    { rewrite Hfull, Hlen. by apply IH. }
    destruct (closes_routine lower l) eqn:Ec; [|by apply Hlater].
    destruct name' as [n'|]; [|by apply elem_of_nil in Hin].
    destruct start' as [s'|]; [|by apply elem_of_nil in Hin].
    simpl in Hin. apply elem_of_cons in Hin as [Heq|Hin]; [|by apply Hlater].
    injection Heq as -> -> ->.
    destruct Ht'' as [(l0 & Hl0 & Hn0) Hafter].
    assert (Hs : (s' < length (before ++ [l]))%nat)
      by (by apply lookup_lt_Some in Hl0).
    rewrite <- Hlen in Hs. rewrite Hfull.
    split; [lia|]. split.
    { exists l0. split; [|done]. by apply lookup_app_l_Some. }
    split.
    { exists l. split; [|done]. apply lookup_app_l_Some.
      by rewrite lookup_app_r, Nat.sub_diag. }
    intros j l' Hj Hje Hl.
    apply (Hafter j l' Hj).
    rewrite lookup_app_l in Hl; [done|]. rewrite <- Hlen. lia.
Qed.

(** X5: every entry [(name, start, end)] of the routine list, also of the
    part enumerated before a failure, lies in the file with [start ≤ end];
    line [start] opens a routine under that name, line [end] closes one, and
    no line after [start] up to [end] opens another: the routine opened
    last wins. *)
Theorem iter_routines_entries_reported
    (lines : list str) (n : val) (s e : nat) :
  (n, s, e) ∈ yielded (iter_routines lower lines) →
  (s ≤ e < length lines)%nat ∧ reported lower lines n s e.
Proof.
  intros Hin.
  assert (Hr : reported lower lines n s e).
  { apply (iter_routines_from_reported lines [] None None); [|done].
    by constructor. }
  split; [|done].
  destruct Hr as (Hse & _ & (l & Hl & _) & _).
  apply lookup_lt_Some in Hl. lia.
Qed.

End CatalogueMore.

Lemma iter_routines_entries_reported_witness :
  (0 ≤ 2 < 3)%nat
  ∧ reported ascii_lower
      (map of_string ["subroutine s(x)"; "x = 1"; "end subroutine"])
      (VStr (of_string "s")) 0 2.
Proof.
  refine (iter_routines_entries_reported ascii_lower
            (map of_string ["subroutine s(x)"; "x = 1"; "end subroutine"])
            (VStr (of_string "s")) 0 2 _).
  vm_compute. left.
Defined.

Section CatalogueOutcome.

Variable lower : str → str.

Lemma iter_routines_from_opened (rest : list str) :
  ∀ (i s : nat) (n : val),
    outcome (iter_routines_from lower i (Some s) (Some n) rest) = Ok tt
    ∧ map snd (yielded (iter_routines_from lower i (Some s) (Some n) rest))
      = closing_from lower i rest.
Proof.
  induction rest as [|l rest IH]; intros i s n; [done|].
  rewrite iter_routines_from_step. simpl closing_from.
  destruct (opened_name lower l) as [n'|].
  - destruct (IH (S i) i n') as [Ho Hy].
    destruct (closes_routine lower l); simpl; by rewrite ?Ho, ?Hy.
  - destruct (IH (S i) s n) as [Ho Hy].
    destruct (closes_routine lower l); simpl; by rewrite ?Ho, ?Hy.
Qed.

Lemma closings_follow_opening_skip (l : str) (rest : list str) :
  opens_routine lower l = false →
  closes_routine lower l = false →
  closings_follow_opening lower (l :: rest)
  ↔ closings_follow_opening lower rest.
Proof.
  intros Ho Hc. split; intros H i l' Hl Hcl.
  - destruct (H (S i) l' Hl Hcl) as (j & l'' & Hj & Hl'' & Ho'').
    destruct j as [|j].
    + injection Hl'' as <-. congruence.
    + exists j, l''. split; [lia|]. by split.
  - destruct i as [|i].
    + injection Hl as <-. congruence.
    + destruct (H i l' Hl Hcl) as (j & l'' & Hj & Hl'' & Ho'').
      exists (S j), l''. split; [lia|]. by split.
Qed.

Lemma iter_routines_from_unopened_cases (rest : list str) :
  ∀ i,
    (closings_follow_opening lower rest
     ∧ outcome (iter_routines_from lower i None None rest) = Ok tt
     ∧ map snd (yielded (iter_routines_from lower i None None rest))
       = closing_from lower i rest)
    ∨ (¬ closings_follow_opening lower rest
       ∧ outcome (iter_routines_from lower i None None rest)
         = Raise (Exn UnboundLocalError "routine_name")).
Proof.
  induction rest as [|l rest IH]; intros i.
  - left. split; [|done]. intros j l Hl. discriminate Hl.
  - rewrite iter_routines_from_step. simpl closing_from.
    destruct (opened_name lower l) as [n|] eqn:En.
    + left. apply opened_name_opens in En.
      destruct (iter_routines_from_opened rest (S i) i n) as [Ho Hy].
      split.
      { intros j l' _ _. exists 0%nat, l. split; [lia|]. by split. }
      destruct (closes_routine lower l); simpl; by rewrite ?Ho, ?Hy.
    + apply opened_name_none in En.
      destruct (closes_routine lower l) eqn:Ec.
      * right. split; [|done]. intros H.
        destruct (H 0%nat l eq_refl Ec) as (j & l' & Hj & Hl' & Ho').
        destruct j; [|lia]. injection Hl' as <-. congruence.
      * destruct (IH (S i)) as [(Hs & Ho & Hy)|(Hs & Ho)].
        -- left. split; [by apply closings_follow_opening_skip|]. by split.
        -- right. split; [|done].
           by rewrite closings_follow_opening_skip.
Qed.

(** X6: the routine list is enumerated to its end exactly when every
    closing line has an opening line at or before it, and it then has one
    entry for each closing line of the file, in the order of the file;
    otherwise the enumeration raises for [routine_name]. *)
Theorem iter_routines_outcome (lines : list str) :
  (closings_follow_opening lower lines
   ↔ ∃ rs, list_of_gen (iter_routines lower lines) = Ok rs)
  ∧ (¬ closings_follow_opening lower lines
     ↔ list_of_gen (iter_routines lower lines)
       = Raise (Exn UnboundLocalError "routine_name"))
  ∧ (∀ rs, list_of_gen (iter_routines lower lines) = Ok rs →
           map snd rs = closing_from lower 0 lines).
Proof.
  unfold iter_routines, list_of_gen.
  destruct (iter_routines_from_unopened_cases lines 0%nat)
    as [(Hs & Ho & Hy)|(Hs & Ho)]; rewrite Ho.
  - split; [split; [by eexists | done]|].
    split; [split; [done | discriminate]|].
    by intros rs [= <-].
  - split; [split; [done | by intros [rs Hrs]]|].
    split; [done|]. by intros rs Hrs.
Qed.

(** X7: a closing line does not forget the routine: two entries whose
    closing lines have no opening line between them name the same routine
    and the same first line, so a routine followed by a second closing line
    is listed twice, with two ends. *)
Theorem iter_routines_reports_again
    (lines : list str) (n1 n2 : val) (s1 s2 e1 e2 : nat) :
  (n1, s1, e1) ∈ yielded (iter_routines lower lines) →
  (n2, s2, e2) ∈ yielded (iter_routines lower lines) →
  (e1 ≤ e2)%nat →
  (∀ j l, (e1 < j)%nat → (j ≤ e2)%nat → lines !! j = Some l →
          opens_routine lower l = false) →
  s1 = s2 ∧ n1 = n2.
Proof.
  intros H1 H2 He Hbetween.
  apply (iter_routines_from_reported lower lines [] None None) in H1;
    [|by constructor].
  apply (iter_routines_from_reported lower lines [] None None) in H2;
    [|by constructor].
  simpl in H1, H2.
  destruct H1 as (Hse1 & (l1 & Hl1 & Hn1) & _ & Hafter1).
  destruct H2 as (Hse2 & (l2 & Hl2 & Hn2) & _ & Hafter2).
  pose proof (opened_name_opens lower l1 n1 Hn1) as Ho1.
  pose proof (opened_name_opens lower l2 n2 Hn2) as Ho2.
  assert (Hs : s1 = s2).
  { destruct (Nat.lt_trichotomy s1 s2) as [Hlt|[Heq|Hgt]]; [|done|].
    - destruct (Nat.le_gt_cases s2 e1) as [Hle|Hgt].
      + specialize (Hafter1 s2 l2 Hlt Hle Hl2). congruence.
      + specialize (Hbetween s2 l2 Hgt Hse2 Hl2). congruence.
    - assert (Hle : (s1 ≤ e2)%nat) by lia.
      specialize (Hafter2 s1 l1 Hgt Hle Hl1). congruence. }
  split; [done|]. subst s2. congruence.
Qed.

End CatalogueOutcome.

Lemma iter_routines_outcome_witness :
  map snd [(VStr (of_string "s"), 0%nat, 1%nat);
           (VStr (of_string "s"), 0%nat, 2%nat)]
  = closing_from ascii_lower 0
      (map of_string ["subroutine s"; "end"; "end"]).
Proof.
  apply (iter_routines_outcome ascii_lower
           (map of_string ["subroutine s"; "end"; "end"])).
  vm_compute. reflexivity.
Defined.

Lemma iter_routines_reports_again_witness :
  0%nat = 0%nat ∧ VStr (of_string "s") = VStr (of_string "s").
Proof.
  apply (iter_routines_reports_again ascii_lower
           (map of_string ["subroutine s"; "end"; "end"])
           (VStr (of_string "s")) (VStr (of_string "s")) 0 0 1 2).
  - vm_compute. left.
  - vm_compute. right. left.
  - lia.
  - intros [|[|[|j]]] l Hlt Hle Hl; try lia.
    injection Hl as <-. vm_compute. reflexivity.
Defined.

Section CatalogueKind.

Variable lower : str → str.

Lemma flat_is_not_program : of_string "flat" ≠ of_string "program".
Proof. discriminate. Qed.

Lemma flat_is_not_module : of_string "flat" ≠ of_string "module".
Proof. discriminate. Qed.

(** What the first loop leaves when line [l] is the one that decides. *)
Lemma detect_header_deciding (l : str) (rest : list str) (h : header) :
  decides_kind lower l = true →
  detect_header lower (l :: rest) h
  = match Re.search program_re (normalize lower l) with
    | Some m => Header (Some (of_string "program")) (group_of m 1)
    | None =>
        match Re.search module_re (normalize lower l) with
        | Some m => Header (Some (of_string "module")) (group_of m 1)
        | None => Header (Some (of_string "flat")) (fname h)
        end
    end.
Proof.
  unfold decides_kind. intros H. simpl.
  destruct (Re.search program_re (normalize lower l)) eqn:Ep; [done|].
  destruct (Re.search module_re (normalize lower l)) eqn:Em; [done|].
  assert (Hn : bool_decide (is_Some (@None (gmap nat str))) = false).
  { apply bool_decide_eq_false. by intros [? ?]. }
  rewrite Hn in H. simpl in H. by rewrite H.
Qed.

Lemma detect_header_skip (l : str) (rest : list str) (h : header) :
  decides_kind lower l = false →
  detect_header lower (l :: rest) h = detect_header lower rest h.
Proof.
  unfold decides_kind. intros H.
  apply orb_false_iff in H as [H Hsub].
  apply orb_false_iff in H as [Hp Hm].
  simpl.
  by rewrite (search_none_of_bool _ Hp), (search_none_of_bool _ Hm), Hsub.
Qed.

Lemma detect_header_first (before : list str) (l : str) (after : list str)
    (h : header) :
  Forall (λ l, decides_kind lower l = false) before →
  detect_header lower (before ++ l :: after) h
  = detect_header lower (l :: after) h.
Proof.
  induction 1 as [|l0 before Hl0 _ IH]; [done|].
  change ((l0 :: before) ++ l :: after) with (l0 :: (before ++ l :: after)).
  by rewrite detect_header_skip.
Qed.

Lemma detect_header_kind (lines : list str) :
  Exists (λ l, decides_kind lower l = true) lines →
  ∃ k, ftype (detect_header lower lines (Header None VNone)) = Some k
       ∧ k ∈ kinds
       ∧ (k = of_string "flat" →
          fname (detect_header lower lines (Header None VNone)) = VNone).
Proof.
  induction lines as [|l lines IH]; intros He; [by inversion He|].
  destruct (decides_kind lower l) eqn:Ed.
  - rewrite detect_header_deciding by done. unfold kinds.
    destruct (Re.search program_re (normalize lower l)).
    { eexists. split; [done|]. split; [set_solver|].
      intros H. symmetry in H. by apply flat_is_not_program in H. }
    destruct (Re.search module_re (normalize lower l)).
    { eexists. split; [done|]. split; [set_solver|].
      intros H. symmetry in H. by apply flat_is_not_module in H. }
    eexists. split; [done|]. split; [set_solver | done].
  - rewrite detect_header_skip by done. apply IH.
    inversion He as [? ? Hd|? ? Hd]; subst; [congruence | done].
Qed.

(** X8: how [collect_routines] ends.  With no line that decides the kind it
    raises for [ftype]; with one, it raises for [routine_name] when some
    closing line has no opening line at or before it; otherwise it returns:
    the kind is "program", "module" or "flat", a flat file has the name
    [None], and the routine list has one entry for each closing line. *)
Theorem collect_routines_outcome (lines : list str) :
  (Forall (λ l, decides_kind lower l = false) lines →
   collect_routines lower lines = Raise (Exn UnboundLocalError "ftype"))
  ∧ (Exists (λ l, decides_kind lower l = true) lines →
     ¬ closings_follow_opening lower lines →
     collect_routines lower lines
     = Raise (Exn UnboundLocalError "routine_name"))
  ∧ (Exists (λ l, decides_kind lower l = true) lines →
     closings_follow_opening lower lines →
     ∃ k n rs, collect_routines lower lines = Ok (k, n, rs)
               ∧ k ∈ kinds
               ∧ (k = of_string "flat" → n = VNone)
               ∧ map snd rs = closing_from lower 0 lines).
Proof.
  split; [apply collect_routines_undecided|].
  unfold collect_routines, iter_routines, list_of_gen.
  split; intros He Hc; destruct (detect_header_kind lines He)
    as (k & Hk & Hin & Hflat); rewrite Hk; simpl;
    destruct (iter_routines_from_unopened_cases lower lines 0%nat)
      as [(Hs & Ho & Hy)|(Hs & Ho)]; rewrite Ho; simpl; try done.
  eexists _, _, _. split; [done|]. by repeat split.
Qed.

(** X9: the kind and the name come from the first line that decides, read
    in the order program, module, subroutine; the lines after it play no
    part, so a file whose first deciding line starts with "subroutine" is
    flat and without a name whatever header follows. *)
Theorem collect_routines_first_deciding_line
    (before : list str) (l : str) (after : list str)
    (k : str) (n : val) (rs : list routine) :
  Forall (λ l, decides_kind lower l = false) before →
  decides_kind lower l = true →
  collect_routines lower (before ++ l :: after) = Ok (k, n, rs) →
  (k, n) = match Re.search program_re (normalize lower l) with
           | Some m => (of_string "program", group_of m 1)
           | None =>
               match Re.search module_re (normalize lower l) with
               | Some m => (of_string "module", group_of m 1)
               | None => (of_string "flat", VNone)
               end
           end.
Proof.
  intros Hb Hl. unfold collect_routines.
  rewrite detect_header_first by done.
  rewrite detect_header_deciding by done.
  destruct (list_of_gen (iter_routines lower (before ++ l :: after)));
    destruct (Re.search program_re (normalize lower l));
    [|destruct (Re.search module_re (normalize lower l))|
     |destruct (Re.search module_re (normalize lower l))];
    simpl; intros H; by inversion H.
Qed.

Lemma normalize_without_comment (l : str) :
  normalize lower (fst (split bang l)) = normalize lower l.
Proof.
  unfold normalize. rewrite split_without_sep; [done|].
  apply (split_first_piece bang l).
Qed.

Lemma detect_header_without_comments (lines : list str) (h : header) :
  detect_header lower (map (λ l, fst (split bang l)) lines) h
  = detect_header lower lines h.
Proof.
  induction lines as [|l lines IH]; [done|].
  simpl. rewrite normalize_without_comment.
  destruct (Re.search program_re (normalize lower l)); [done|].
  destruct (Re.search module_re (normalize lower l)); [done|].
  by destruct (startswith (normalize lower l) (of_string "subroutine")).
Qed.

Lemma iter_routines_from_without_comments (lines : list str) :
  ∀ i start name,
    iter_routines_from lower i start name
      (map (λ l, fst (split bang l)) lines)
    = iter_routines_from lower i start name lines.
Proof.
  induction lines as [|l lines IH]; intros i start name; [done|].
  simpl. rewrite normalize_without_comment.
  destruct (open_routine i (normalize lower l) start name) as [s' n'].
  by rewrite IH.
Qed.

(** X10: the catalogue does not depend on the comments: cutting every line
    at its first "!" leaves the result of [collect_routines], value or
    exception, as it is. *)
Theorem collect_routines_ignores_comments (lines : list str) :
  collect_routines lower (map (λ l, fst (split bang l)) lines)
  = collect_routines lower lines.
Proof.
  unfold collect_routines, iter_routines.
  by rewrite detect_header_without_comments,
             iter_routines_from_without_comments.
Qed.

End CatalogueKind.

Lemma collect_routines_outcome_witness :
  collect_routines ascii_lower [of_string "x = 1"; of_string "y = 2"]
  = Raise (Exn UnboundLocalError "ftype")
  ∧ collect_routines ascii_lower (map of_string ["module m"; "end"])
    = Raise (Exn UnboundLocalError "routine_name")
  ∧ ∃ k n rs,
      collect_routines ascii_lower
        (map of_string ["subroutine s"; "end"; "end"]) = Ok (k, n, rs)
      ∧ k ∈ kinds
      ∧ (k = of_string "flat" → n = VNone)
      ∧ map snd rs
        = closing_from ascii_lower 0
            (map of_string ["subroutine s"; "end"; "end"]).
Proof.
  split; [|split].
  - apply (collect_routines_outcome ascii_lower).
    repeat constructor.
  - apply (collect_routines_outcome ascii_lower).
    + apply Exists_cons_hd. vm_compute. reflexivity.
    + intros H. destruct (H 1%nat (of_string "end") eq_refl eq_refl)
        as (j & l & Hj & Hl & Ho).
      destruct j as [|[|j]]; [| |lia]; injection Hl as <-;
        vm_compute in Ho; discriminate Ho.
  - apply (collect_routines_outcome ascii_lower).
    + apply Exists_cons_hd. vm_compute. reflexivity.
    + intros i l Hl Hc. exists 0%nat, (of_string "subroutine s").
      split; [lia|]. split; [reflexivity | vm_compute; reflexivity].
Defined.

Lemma collect_routines_first_deciding_line_witness :
  (of_string "flat", VNone)
  = match Re.search program_re
            (normalize ascii_lower (of_string "subroutine s")) with
    | Some m => (of_string "program", group_of m 1)
    | None =>
        match Re.search module_re
                (normalize ascii_lower (of_string "subroutine s")) with
        | Some m => (of_string "module", group_of m 1)
        | None => (of_string "flat", VNone)
        end
    end.
Proof.
  apply (collect_routines_first_deciding_line ascii_lower
           [of_string "! notes"] (of_string "subroutine s")
           (map of_string ["end"; "program p"])
           (of_string "flat") VNone [(VStr (of_string "s"), 1%nat, 2%nat)]).
  - repeat constructor.
  - vm_compute. reflexivity.
  - vm_compute. reflexivity.
Defined.

(** ** The event classes, continued *)

(** X11: every class stores what its initializer is given, under the name
    of the parameter: [Use], [Block] and [Jump] keep the statement through
    [Event.__init__] and add their own attribute; [Call] and [Goto], which
    are no events, have no [statement]. *)
Theorem constructors_store_arguments (statement x : val) :
  (o ← construct CEvent [statement]; get_attr o "statement") = Ok statement
  ∧ (o ← construct CUse [statement; x]; get_attr o "statement")
    = Ok statement
  ∧ (o ← construct CUse [statement; x]; get_attr o "modname") = Ok x
  ∧ (o ← construct CBlock [statement; x]; get_attr o "statement")
    = Ok statement
  ∧ (o ← construct CBlock [statement; x]; get_attr o "finite") = Ok x
  ∧ (o ← construct CJump [statement; x]; get_attr o "statement")
    = Ok statement
  ∧ (o ← construct CJump [statement; x]; get_attr o "target") = Ok x
  ∧ (o ← construct CCall [x]; get_attr o "target_name") = Ok x
  ∧ (o ← construct CGoto [x]; get_attr o "label_name") = Ok x
  ∧ (o ← construct CCall [x]; get_attr o "statement")
    = Raise (Exn AttributeError "statement")
  ∧ (o ← construct CGoto [x]; get_attr o "statement")
    = Raise (Exn AttributeError "statement").
Proof. repeat split; vm_compute; reflexivity. Qed.

Lemma resolve_str_of_event (c : class) :
  CEvent ∈ mro c → fst <$> resolve (mro c) "__str__" = Some Event_str.
Proof.
  destruct c; intros H; try (vm_compute; reflexivity);
    vm_compute in H; exfalso;
    repeat (apply elem_of_cons in H as [H|H]; [discriminate H|]);
    by apply elem_of_nil in H.
Qed.

Lemma resolve_statement (c : class) : resolve (mro c) "statement" = None.
Proof. destruct c; vm_compute; reflexivity. Qed.

(** X12: [str] of an instance of [Event] or of a subclass is the statement,
    " |=| " and the class when the attribute [statement] holds a string; it
    raises [TypeError] when the attribute holds anything else and
    [AttributeError] when the instance has none. *)
Theorem to_str_of_event (c : class) (attrs : gmap string val) :
  CEvent ∈ mro c →
  to_str (VObj c attrs)
  = match attrs !! "statement" with
    | Some (VStr s) =>
        Ok (VStr (s ++ of_string " |=| " ++ type_repr (VObj c attrs)))
    | Some _ => Raise (Exn TypeError "unsupported operand type(s) for +")
    | None => Raise (Exn AttributeError "statement")
    end.
Proof.
  intros Hc. apply resolve_str_of_event in Hc.
  unfold to_str, call_method.
  destruct (resolve (mro c) "__str__") as [[m classes]|]; [|discriminate Hc].
  injection Hc as ->.
  unfold run_method, get_attr. rewrite resolve_statement.
  destruct (attrs !! "statement") as [[]|]; try reflexivity.
  simpl. by rewrite <- app_assoc.
Qed.

Lemma to_str_of_event_witness :
  to_str (VObj CLoopJump (<["statement" := VBool true]> ∅))
  = Raise (Exn TypeError "unsupported operand type(s) for +").
Proof.
  rewrite (to_str_of_event CLoopJump (<["statement" := VBool true]> ∅)).
  - reflexivity.
  - vm_compute. right. left.
Defined.

(** ** The patterns of the catalogue *)

Lemma or_else_is_Some {A} (a b : option A) :
  is_Some (Re.or_else a b) ↔ is_Some a ∨ is_Some b.
Proof.
  destruct a; simpl; [|by split; [right | intros [[? ?]|]]].
  split; [by left | by eexists].
Qed.

Lemma startswith_spec (s p : str) :
  startswith s p = true ↔ ∃ s', s = p ++ s'.
Proof.
  revert s. induction p as [|d p IH]; intros s.
  - destruct s; simpl; (split; [by eexists | done]).
  - destruct s as [|c s]; simpl.
    + split; [done | by intros [? ?]].
    + rewrite andb_true_iff, N.eqb_eq, IH. split.
      * intros [-> [s' ->]]. by exists s'.
      * intros [s' [= -> ->]]. split; [done | by exists s'].
Qed.

Section Matcher.

Variable items : list Re.set_item.

(** A character of the set. *)
Let member (c : char) : Prop :=
  existsb (λ i, Re.item_matches i c) items = true.

Lemma repeat_set_is_Some (k : Re.cont) :
  ∀ fuel pos s g,
    is_Some (Re.repeat (Re.run (Re.Set_ items)) fuel pos s g k)
    ↔ ∃ p s', s = p ++ s' ∧ Forall member p ∧ (length p ≤ fuel)%nat
              ∧ is_Some (k (pos + length p)%nat s' g).
Proof.
  induction fuel as [|fuel IH]; intros pos s g.
  - simpl. split.
    + intros H. exists [], s. rewrite Nat.add_0_r. by repeat split.
    + intros (p & s' & -> & _ & Hl & H).
      destruct p; [|simpl in Hl; lia]. by rewrite Nat.add_0_r in H.
  - simpl Re.repeat. rewrite or_else_is_Some. split.
    + intros [H|H].
      * destruct s as [|c s1]; simpl in H; [by destruct H|].
        destruct (existsb (λ i, Re.item_matches i c) items) eqn:Ec;
          [|by destruct H].
        assert (Hlt : (length s1 <? S (length s1))%nat = true)
          by (apply Nat.ltb_lt; lia).
        rewrite Hlt in H. apply IH in H as (p & s' & -> & Hp & Hl & H).
        exists (c :: p), s'. split; [done|]. split; [by constructor|].
        split; [simpl; lia|]. simpl. by rewrite Nat.add_succ_r.
      * exists [], s. rewrite Nat.add_0_r. split; [done|].
        split; [constructor|]. split; [simpl; lia | done].
    + intros (p & s' & -> & Hp & Hl & H). destruct p as [|c p].
      * right. by rewrite Nat.add_0_r in H.
      * left. inversion Hp as [|? ? Hc Hp']; subst. simpl.
        unfold member in Hc. rewrite Hc.
        assert (Hlt : (length (p ++ s') <? S (length (p ++ s')))%nat = true)
          by (apply Nat.ltb_lt; lia).
        rewrite Hlt. apply IH. exists p, s'. split; [done|].
        split; [done|]. split; [simpl in Hl; lia|].
        simpl in H. by rewrite Nat.add_succ_r in H.
Qed.

(** [[...]+] followed by [k] matches when some non-empty run of characters
    of the set, at the head of the text, is followed by a match of [k]. *)
Lemma run_plus_set_is_Some (k : Re.cont) (pos : nat) (s : str)
    (g : gmap nat str) :
  is_Some (Re.run (Re.Plus (Re.Set_ items)) pos s g k)
  ↔ ∃ p s', p ≠ [] ∧ s = p ++ s' ∧ Forall member p
            ∧ is_Some (k (pos + length p)%nat s' g).
Proof.
  change (Re.run (Re.Plus (Re.Set_ items)) pos s g k)
    with (Re.run (Re.Set_ items) pos s g (λ pos' s' g',
            Re.repeat (Re.run (Re.Set_ items)) (length s') pos' s' g' k)).
  split.
  - intros H. destruct s as [|c s1]; simpl in H; [by destruct H|].
    destruct (existsb (λ i, Re.item_matches i c) items) eqn:Ec;
      [|by destruct H].
    apply repeat_set_is_Some in H as (p & s' & -> & Hp & _ & H).
    exists (c :: p), s'. split; [done|]. split; [done|].
    split; [by constructor|]. simpl. by rewrite Nat.add_succ_r.
  - intros (p & s' & Hne & -> & Hp & H). destruct p as [|c p]; [done|].
    inversion Hp as [|? ? Hc Hp']; subst. simpl.
    unfold member in Hc. rewrite Hc.
    apply repeat_set_is_Some. exists p, s'. split; [done|].
    split; [done|]. split; [rewrite length_app; lia|].
    simpl in H. by rewrite Nat.add_succ_r in H.
Qed.

End Matcher.

Lemma run_lit_is_Some (l : str) (k : Re.cont) (pos : nat) (s : str)
    (g : gmap nat str) :
  is_Some (Re.run (Re.Lit l) pos s g k)
  ↔ ∃ s', s = l ++ s' ∧ is_Some (k (pos + length l)%nat s' g).
Proof.
  simpl. destruct (startswith s l) eqn:E.
  - apply startswith_spec in E as [s' ->]. rewrite drop_app_length. split.
    + intros H. by exists s'.
    + intros (s'' & Heq & H). by apply app_inv_head in Heq as <-.
  - split; [by intros [? ?]|]. intros (s' & -> & _).
    assert (startswith (l ++ s') l = true)
      by (apply startswith_spec; by exists s').
    congruence.
Qed.

Lemma run_eol_is_Some (k : Re.cont) (pos : nat) (s : str) (g : gmap nat str) :
  is_Some (Re.run Re.Eol pos s g k)
  ↔ (s = [] ∨ s = [10]) ∧ is_Some (k pos s g).
Proof.
  simpl. destruct s as [|c [|d s]].
  - split; [by split; [left|] | by intros [_ ?]].
  - destruct (c =? 10) eqn:E.
    + apply N.eqb_eq in E as ->. split; [by split; [right|] | by intros [_ ?]].
    + apply N.eqb_neq in E. split; [by intros [? ?]|].
      intros [[H|H] _]; [done | congruence].
  - split; [by intros [? ?]|]. by intros [[H|H] _].
Qed.

Lemma blank_member (c : char) :
  existsb (λ i, Re.item_matches i c) [Re.Space] = true ↔ blank c.
Proof. unfold blank. simpl. by rewrite orb_false_r. Qed.

Lemma Forall_blank_member (ws : str) :
  Forall (λ c, existsb (λ i, Re.item_matches i c) [Re.Space] = true) ws
  ↔ Forall blank ws.
Proof. apply Forall_proper; [intros c; apply blank_member | done]. Qed.

Lemma run_cat_eq (a b : Re.regex) (k : Re.cont) (pos : nat) (s : str)
    (g : gmap nat str) :
  Re.run (Re.Cat a b) pos s g k
  = Re.run a pos s g (λ pos' s' g', Re.run b pos' s' g' k).
Proof. reflexivity. Qed.

Lemma run_group_eq (n : nat) (r : Re.regex) (k : Re.cont) (pos : nat)
    (s : str) (g : gmap nat str) :
  Re.run (Re.Group n r) pos s g k
  = Re.run r pos s g (λ pos' s' g',
      k pos' s' (<[n := take (pos' - pos) s]> g')).
Proof. reflexivity. Qed.

Lemma run_bol_eq (k : Re.cont) (s : str) (g : gmap nat str) :
  Re.run Re.Bol 0 s g k = k 0%nat s g.
Proof. reflexivity. Qed.

Lemma run_bol_later (k : Re.cont) (pos : nat) (s : str) (g : gmap nat str) :
  Re.run Re.Bol (S pos) s g k = None.
Proof. reflexivity. Qed.

Lemma run_opt_is_Some (r : Re.regex) (k : Re.cont) (pos : nat) (s : str)
    (g : gmap nat str) :
  is_Some (Re.run (Re.Opt r) pos s g k)
  ↔ is_Some (Re.run r pos s g k) ∨ is_Some (k pos s g).
Proof. apply or_else_is_Some. Qed.

Lemma run_alt_is_Some (a b : Re.regex) (k : Re.cont) (pos : nat) (s : str)
    (g : gmap nat str) :
  is_Some (Re.run (Re.Alt a b) pos s g k)
  ↔ is_Some (Re.run a pos s g k) ∨ is_Some (Re.run b pos s g k).
Proof. apply or_else_is_Some. Qed.

Ltac run_step :=
  repeat (rewrite run_cat_eq || rewrite run_group_eq || rewrite run_bol_eq);
  cbv beta.

Ltac run_step_in H :=
  repeat (rewrite run_cat_eq in H || rewrite run_group_eq in H
          || rewrite run_bol_eq in H);
  cbv beta in H.

(** The texts [^end(\s+(subroutine|function))?$] matches. *)
Lemma end_re_language (s : str) :
  is_Some (Re.match_ end_re s)
  ↔ ∃ tail nl,
      s = of_string "end" ++ tail ++ nl
      ∧ (nl = [] ∨ nl = [10])
      ∧ (tail = []
         ∨ ∃ ws, ws ≠ [] ∧ Forall blank ws
                 ∧ (tail = ws ++ of_string "subroutine"
                    ∨ tail = ws ++ of_string "function")).
Proof.
  unfold Re.match_. rewrite fmap_is_Some.
  unfold end_re, Re.seq, Re.lit, Re.space. split.
  - intros H. run_step_in H.
    apply run_lit_is_Some in H as (s1 & -> & H). run_step_in H.
    apply run_opt_is_Some in H as [H|H].
    + run_step_in H.
      apply run_plus_set_is_Some in H as (ws & s2 & Hne & -> & Hws & H).
      run_step_in H. apply Forall_blank_member in Hws.
      apply run_alt_is_Some in H as [H|H];
        apply run_lit_is_Some in H as (s3 & -> & H);
        apply run_eol_is_Some in H as [Hnl _].
      * exists (ws ++ of_string "subroutine"), s3.
        rewrite <- !app_assoc. split; [done|]. split; [done|].
        right. exists ws. by repeat split; [..|left].
      * exists (ws ++ of_string "function"), s3.
        rewrite <- !app_assoc. split; [done|]. split; [done|].
        right. exists ws. by repeat split; [..|right].
    + apply run_eol_is_Some in H as [Hnl _]. exists [], s1.
      split; [done|]. split; [done | by left].
  - intros (tail & nl & -> & Hnl & Ht). run_step.
    apply run_lit_is_Some. exists (tail ++ nl). split; [done|]. run_step.
    apply run_opt_is_Some. destruct Ht as [->|(ws & Hne & Hws & Ht)].
    + right. apply run_eol_is_Some. split; [done | by eexists].
    + left. run_step. apply run_plus_set_is_Some.
      apply Forall_blank_member in Hws.
      destruct Ht as [->| ->].
      * exists ws, (of_string "subroutine" ++ nl).
        split; [done|]. split; [by rewrite <- app_assoc|]. split; [done|].
        run_step. apply run_alt_is_Some. left.
        apply run_lit_is_Some. exists nl. split; [done|].
        apply run_eol_is_Some. split; [done | by eexists].
      * exists ws, (of_string "function" ++ nl).
        split; [done|]. split; [by rewrite <- app_assoc|]. split; [done|].
        run_step. apply run_alt_is_Some. right.
        apply run_lit_is_Some. exists nl. split; [done|].
        apply run_eol_is_Some. split; [done | by eexists].
Qed.

(** A pattern that starts with [^] matches at the start of the text only. *)
Lemma search_from_anchored (r : Re.regex) (s : str) :
  ∀ pos, Re.search_from (Re.Cat Re.Bol r) (S pos) s = None.
Proof.
  induction s as [|c s IH]; intros pos; simpl; [done|]. apply IH.
Qed.

Lemma search_anchored (r : Re.regex) (s : str) :
  Re.search (Re.Cat Re.Bol r) s = Re.match_ (Re.Cat Re.Bol r) s.
Proof.
  unfold Re.search, Re.match_. destruct s as [|c s]; simpl.
  - by destruct (Re.run r 0 [] ∅ Re.stop) as [[? ?]|].
  - destruct (Re.run r 0 (c :: s) ∅ Re.stop) as [[? ?]|]; [done|].
    apply search_from_anchored.
Qed.

Lemma run_names_routine (keyword : string) (k : Re.cont) (n : nat)
    (s : str) (g : gmap nat str) (pos : nat) :
  (∀ pos' s' g', is_Some (k pos' s' g')) →
  is_Some (Re.run
    (Re.Cat (Re.lit keyword)
       (Re.Cat (Re.Plus Re.space)
          (Re.Group n (Re.Plus (Re.Set_
             [Re.upper_A_to_lower_z; Re.digit_0_9; Re.underscore])))))
    pos s g k)
  ↔ names_routine keyword s.
Proof.
  intros Hk. unfold Re.lit, Re.space, names_routine, spaces. split.
  - intros H. run_step_in H.
    apply run_lit_is_Some in H as (s1 & -> & H). run_step_in H.
    apply run_plus_set_is_Some in H as (ws & s2 & Hne & -> & Hws & H).
    run_step_in H. apply Forall_blank_member in Hws.
    apply run_plus_set_is_Some in H as (name & rest & Hnn & -> & Hname & _).
    by exists ws, name, rest.
  - intros (ws & name & rest & -> & [Hne Hws] & Hnn & Hname). run_step.
    apply run_lit_is_Some. eexists. split; [done|]. run_step.
    apply run_plus_set_is_Some. apply Forall_blank_member in Hws.
    exists ws, (name ++ rest). split; [done|]. split; [done|].
    split; [done|]. run_step.
    apply run_plus_set_is_Some. exists name, rest. by repeat split.
Qed.

Lemma stop_is_Some (pos : nat) (s : str) (g : gmap nat str) :
  is_Some (Re.stop pos s g).
Proof. by eexists. Qed.

(** The texts [^subroutine\s+([A-z0-9_]+)] finds. *)
Lemma subroutine_re_language (s : str) :
  is_Some (Re.search subroutine_re s) ↔ names_routine "subroutine" s.
Proof.
  unfold subroutine_re, Re.seq. rewrite search_anchored.
  unfold Re.match_. rewrite fmap_is_Some. run_step.
  apply run_names_routine, stop_is_Some.
Qed.

(** The texts [^([A-z0-9_()]+\s+)?function\s+([A-z0-9_]+)] finds. *)
Lemma function_re_language (s : str) :
  is_Some (Re.search function_re s)
  ↔ names_routine "function" s
    ∨ ∃ word ws text,
        s = word ++ ws ++ text
        ∧ word ≠ [] ∧ Forall prefix_char word ∧ spaces ws
        ∧ names_routine "function" text.
Proof.
  unfold function_re, Re.seq. rewrite search_anchored.
  unfold Re.match_. rewrite fmap_is_Some. run_step.
  rewrite run_opt_is_Some.
  rewrite (run_names_routine "function" _ 2 s ∅ 0 stop_is_Some).
  split.
  - intros [H|H]; [right | by left].
    run_step_in H. unfold Re.space in H.
    apply run_plus_set_is_Some in H as (word & s1 & Hne & -> & Hword & H).
    run_step_in H.
    apply run_plus_set_is_Some in H as (ws & text & Hnw & -> & Hws & H).
    apply Forall_blank_member in Hws.
    apply run_names_routine in H; [|intros; apply stop_is_Some].
    by exists word, ws, text.
  - intros [H|H]; [by right | left].
    destruct H as (word & ws & text & -> & Hne & Hword & [Hnw Hws] & H).
    run_step. unfold Re.space. apply run_plus_set_is_Some.
    exists word, (ws ++ text). split; [done|]. split; [done|].
    split; [done|]. run_step.
    apply run_plus_set_is_Some. apply Forall_blank_member in Hws.
    exists ws, text. split; [done|]. split; [done|]. split; [done|].
    apply run_names_routine; [intros; apply stop_is_Some | done].
Qed.

Lemma run_unique {A} (P : A → Prop) (a b : list A) (c d : A) (x y : list A) :
  Forall P a → Forall P b → ¬ P c → ¬ P d →
  a ++ c :: x = b ++ d :: y → a = b ∧ c :: x = d :: y.
Proof.
  intros Ha. revert b. induction Ha as [|a0 a Ha0 Ha IH]; intros b Hb Hc Hd.
  - destruct Hb as [|b0 b Hb0 Hb]; simpl; [done|].
    intros [= -> _]. done.
  - destruct Hb as [|b0 b Hb0 Hb]; simpl.
    + intros [= -> _]. done.
    + intros [= -> H]. destruct (IH b Hb Hc Hd H) as [-> ->]. done.
Qed.

Lemma prefix_char_not_blank (c : char) : prefix_char c → isspace c = false.
Proof.
  unfold prefix_char. simpl. intros H.
  destruct (isspace c) eqn:E; [exfalso | done].
  unfold isspace in E.
  repeat (rewrite ?orb_true_iff, ?andb_true_iff, ?N.leb_le, ?N.eqb_eq in H).
  repeat (rewrite ?orb_true_iff, ?andb_true_iff, ?N.leb_le, ?N.eqb_eq in E).
  lia.
Qed.

Lemma spaces_cons (ws : str) :
  spaces ws → ∃ b ws', ws = b :: ws' ∧ isspace b = true ∧ Forall blank ws'.
Proof.
  intros [Hne Hws]. destruct Hws as [|b ws' Hb Hws']; [done|].
  by exists b, ws'.
Qed.

Lemma end_word : Forall (λ c, ¬ blank c) (of_string "end").
Proof. repeat constructor; vm_compute; discriminate. Qed.

Lemma end_prefix_chars : Forall prefix_char (of_string "end").
Proof. repeat constructor. Qed.

(** A line keyword: "subroutine" or "function". *)
Lemma keyword_head (keyword : string) :
  keyword = "subroutine" ∨ keyword = "function" →
  ∃ c cs, of_string keyword = c :: cs ∧ isspace c = false.
Proof. intros [-> | ->]; by eexists _, _. Qed.

Lemma after_blanks (keyword : string) (ws ws1 x text : str) :
  keyword = "subroutine" ∨ keyword = "function" →
  Forall blank ws → Forall blank ws1 →
  (∃ c cs, text = c :: cs ∧ isspace c = false) →
  ws ++ of_string keyword ++ x = ws1 ++ text →
  of_string keyword ++ x = text.
Proof.
  intros Hk Hws Hws1 (c & cs & -> & Hc) Heq.
  destruct (keyword_head keyword Hk) as (d & ds & Hd & Hdb).
  rewrite Hd in *.
  apply (run_unique blank) in Heq as [_ Heq]; try done;
    unfold blank; congruence.
Qed.

(** A line "end", white space, a keyword and more is opened by a word,
    white space and "function" only when the word is "end" and the keyword
    "function". *)
Lemma end_keyword_as_header (keyword : string) (ws x word ws1 y : str) :
  keyword = "subroutine" ∨ keyword = "function" →
  spaces ws → word ≠ [] → Forall prefix_char word → spaces ws1 →
  of_string "end" ++ ws ++ of_string keyword ++ x
  = word ++ ws1 ++ of_string "function" ++ y →
  keyword = "function" ∧ x = y.
Proof.
  intros Hk Hws Hne Hword Hws1 Heq.
  destruct (spaces_cons ws Hws) as (b & ws' & -> & Hb & Hws').
  destruct (spaces_cons ws1 Hws1) as (b1 & ws1' & -> & Hb1 & Hws1').
  apply (run_unique (λ c, ¬ blank c)) in Heq as [_ Heq].
  - injection Heq as _ Heq.
    apply (after_blanks keyword) in Heq; [|done..|by eexists _, _].
    destruct Hk as [-> | ->]; [discriminate Heq|].
    split; [done|].
    change (of_string "function" ++ x = of_string "function" ++ y) in Heq.
    by apply app_inv_head in Heq.
  - apply end_word.
  - eapply Forall_impl; [exact Hword|].
    intros c Hc. unfold blank. by rewrite (prefix_char_not_blank c Hc).
  - by intros H; apply H.
  - by intros H; apply H.
Qed.

(** Two lines "end", white space and a keyword agree only when nothing
    follows the keyword of the longer one. *)
Lemma end_keyword_alone (keyword keyword' : string) (ws ws1 x : str) :
  keyword = "subroutine" ∨ keyword = "function" →
  keyword' = "subroutine" ∨ keyword' = "function" →
  spaces ws → spaces ws1 →
  of_string "end" ++ ws ++ of_string keyword ++ x
  = of_string "end" ++ ws1 ++ of_string keyword' →
  x = [].
Proof.
  intros Hk Hk' [_ Hws] [_ Hws1] Heq. apply app_inv_head in Heq.
  apply (after_blanks keyword) in Heq; [|done..|by apply keyword_head].
  destruct Hk as [-> | ->], Hk' as [-> | ->]; try discriminate Heq.
  - change (of_string "subroutine")
      with (of_string "subroutine" ++ []) in Heq at 2.
    by apply app_inv_head in Heq.
  - change (of_string "function")
      with (of_string "function" ++ []) in Heq at 2.
    by apply app_inv_head in Heq.
Qed.

Lemma starts_with_end_not_header (keyword : string) (t ws name rest : str) :
  keyword = "subroutine" ∨ keyword = "function" →
  of_string "end" ++ t ≠ of_string keyword ++ ws ++ name ++ rest.
Proof. intros [-> | ->]; discriminate. Qed.

(** A closing text is no opening text. *)
Lemma closing_text_not_opening (text : str) :
  closing_text text → ¬ opening_text text.
Proof.
  intros Hc Ho.
  assert (Hend : ∃ t, text = of_string "end" ++ t).
  { destruct Hc as [->|(ws & _ & [-> | ->])]; [by exists []|..];
      by eexists. }
  destruct Ho as [Ho|[Ho|Ho]].
  - destruct Hend as [t ->]. destruct Ho as (ws & name & rest & Heq & _).
    by apply (starts_with_end_not_header "subroutine") in Heq; [|left].
  - destruct Hend as [t ->]. destruct Ho as (ws & name & rest & Heq & _).
    by apply (starts_with_end_not_header "function") in Heq; [|right].
  - destruct Ho as (word & ws1 & text' & -> & Hne & Hword & Hws1 & Ht).
    destruct Ht as (ws2 & name & rest & -> & [Hne2 _] & _).
    destruct Hc as [Hc|(ws & Hws & Hc)].
    + destruct Hws1 as [Hne1 _].
      apply (f_equal length) in Hc. rewrite !length_app in Hc.
      destruct word; [done|]. destruct ws1; [done|]. simpl in Hc. lia.
    + assert (Hk : ∃ keyword,
                 (keyword = "subroutine" ∨ keyword = "function")
                 ∧ of_string "end" ++ ws ++ of_string keyword ++ []
                   = word ++ ws1 ++ of_string "function"
                     ++ ws2 ++ name ++ rest).
      { destruct Hc as [Hc|Hc]; eexists; (split; [|by rewrite app_nil_r]);
          auto. }
      destruct Hk as (keyword & Hk & Heq).
      apply end_keyword_as_header in Heq as [_ Heq]; try done.
      by destruct ws2.
Qed.

Section Headers.

Variable lower : str → str.

Lemma normalize_trimmed (l : str) : trimmed (normalize lower l).
Proof.
  unfold normalize.
  by destruct (strip_spec (lower (fst (split bang l))))
    as (? & ? & _ & _ & _ & H).
Qed.

Lemma closes_routine_text (l : str) :
  closes_routine lower l = true ↔ closing_text (normalize lower l).
Proof.
  unfold closes_routine. rewrite bool_decide_eq_true, end_re_language.
  unfold closing_text, spaces. split.
  - intros (tail & nl & Heq & Hnl & Ht).
    destruct Hnl as [-> | ->].
    + rewrite app_nil_r in Heq.
      destruct Ht as [->|(ws & Hne & Hws & [-> | ->])].
      * left. by rewrite app_nil_r in Heq.
      * right. exists ws. split; [done|]. by left.
      * right. exists ws. split; [done|]. by right.
    + pose proof (normalize_trimmed l) as Htr. rewrite Heq in Htr.
      unfold trimmed in Htr. rewrite app_assoc, last_snoc in Htr.
      simpl in Htr. destruct Htr as [_ Htr]. vm_compute in Htr.
      discriminate Htr.
  - intros [Heq|(ws & [Hne Hws] & Heq)].
    + exists [], []. rewrite Heq. split; [done|]. split; [by left | by left].
    + destruct Heq as [Heq|Heq]; rewrite Heq.
      * exists (ws ++ of_string "subroutine"), []. rewrite app_nil_r.
        split; [done|]. split; [by left|]. right. exists ws.
        split; [done|]. split; [done | by left].
      * exists (ws ++ of_string "function"), []. rewrite app_nil_r.
        split; [done|]. split; [by left|]. right. exists ws.
        split; [done|]. split; [done | by right].
Qed.

Lemma opens_routine_text (l : str) :
  opens_routine lower l = true ↔ opening_text (normalize lower l).
Proof.
  unfold opens_routine, opening_text.
  by rewrite orb_true_iff, !bool_decide_eq_true, subroutine_re_language,
             function_re_language.
Qed.

(** X13: a line closes a routine exactly when, cut at the comment,
    lowercased and trimmed, it reads "end", or "end", white space and
    "subroutine" or "function", with nothing after. *)
Theorem closes_routine_language (l : str) :
  closes_routine lower l = true ↔ closing_text (normalize lower l).
Proof. apply closes_routine_text. Qed.

(** X14: a line opens a routine exactly when, cut at the comment,
    lowercased and trimmed, it starts with "subroutine", white space and a
    name, or with "function", white space and a name, the latter also after
    one word of letters, digits, "_" and parentheses and white space. *)
Theorem opens_routine_language (l : str) :
  opens_routine lower l = true ↔ opening_text (normalize lower l).
Proof. apply opens_routine_text. Qed.

(** X15: no line both closes and opens a routine. *)
Theorem closing_line_opens_nothing (l : str) :
  closes_routine lower l = true → opens_routine lower l = false.
Proof.
  intros Hc. apply closes_routine_text in Hc.
  destruct (opens_routine lower l) eqn:Ho; [|done].
  apply opens_routine_text in Ho.
  by apply closing_text_not_opening in Hc.
Qed.

(** X16: an end statement that repeats the name of the routine does not
    close it: "end", white space, "subroutine" or "function", white space
    and a name is no closing line; with "function" it opens a routine, with
    "subroutine" it does not. *)
Theorem named_end_does_not_close
    (l : str) (keyword : string) (ws ws' name : str) :
  keyword = "subroutine" ∨ keyword = "function" →
  spaces ws → spaces ws' → name ≠ [] → Forall name_char name →
  normalize lower l
  = of_string "end" ++ ws ++ of_string keyword ++ ws' ++ name →
  closes_routine lower l = false
  ∧ (opens_routine lower l = true ↔ keyword = "function").
Proof.
  intros Hk Hws Hws' Hne Hname Heq. split.
  - destruct (closes_routine lower l) eqn:Hc; [exfalso | done].
    apply closes_routine_text in Hc. rewrite Heq in Hc.
    destruct Hc as [Hc|(ws1 & Hws1 & Hc)].
    + apply (f_equal length) in Hc. rewrite !length_app in Hc.
      destruct Hws as [Hw _]. destruct ws; [done|]. simpl in Hc.
      destruct Hk as [-> | ->]; simpl in Hc; lia.
    + assert (Hx : ws' ++ name = []).
      { destruct Hc as [Hc|Hc];
          eapply (end_keyword_alone keyword _ ws ws1); try exact Hc;
          auto. }
      destruct Hws' as [Hw' _]. by destruct ws'.
  - rewrite opens_routine_text, Heq. split.
    + intros [Ho|[Ho|Ho]].
      * destruct Ho as (? & ? & ? & Ho & _).
        by apply (starts_with_end_not_header "subroutine") in Ho; [|left].
      * destruct Ho as (? & ? & ? & Ho & _).
        by apply (starts_with_end_not_header "function") in Ho; [|right].
      * destruct Ho as (word & ws1 & text & Ho & Hw & Hword & Hws1 & Ht).
        destruct Ht as (ws2 & name2 & rest & -> & _).
        by apply end_keyword_as_header in Ho as [Ho _].
    + intros ->. right. right.
      exists (of_string "end"), ws, (of_string "function" ++ ws' ++ name).
      split; [done|]. split; [done|]. split; [apply end_prefix_chars|].
      split; [done|]. exists ws', name, []. by rewrite app_nil_r.
Qed.

End Headers.

Lemma closing_line_opens_nothing_witness :
  opens_routine ascii_lower (of_string "  END  Subroutine ! done") = false.
Proof.
  apply (closing_line_opens_nothing ascii_lower). vm_compute. reflexivity.
Defined.

Lemma named_end_does_not_close_witness :
  closes_routine ascii_lower (of_string "end function area") = false
  ∧ (opens_routine ascii_lower (of_string "end function area") = true
     ↔ "function" = "function").
Proof.
  apply (named_end_does_not_close ascii_lower
           (of_string "end function area") "function"
           (of_string " ") (of_string " ") (of_string "area")).
  - by right.
  - split; [done | by repeat constructor].
  - split; [done | by repeat constructor].
  - done.
  - by repeat constructor.
  - vm_compute. reflexivity.
Defined.

Lemma closes_routine_language_witness :
  closes_routine ascii_lower (of_string "End Function ! of f") = true.
Proof.
  apply (closes_routine_language ascii_lower). right.
  exists (of_string " "). split; [split; [done | by repeat constructor]|].
  right. vm_compute. reflexivity.
Defined.

Lemma opens_routine_language_witness :
  opens_routine ascii_lower (of_string "real(8) function f(x)") = true.
Proof.
  apply (opens_routine_language ascii_lower). right. right.
  exists (of_string "real(8)"), (of_string " "), (of_string "function f(x)").
  split; [vm_compute; reflexivity|]. split; [done|].
  split; [by repeat constructor|].
  split; [split; [done | by repeat constructor]|].
  exists (of_string " "), (of_string "f"), (of_string "(x)").
  split; [reflexivity|]. split; [split; [done | by repeat constructor]|].
  split; [done | by repeat constructor].
Defined.
